(** * The free-page manager of boltdb ([freelist.go])

    A shallow embedding of [freelist.go] and the properties of its
    operations: [free], [release], [rollback], [read], [write], [reload],
    [noSyncReload], [reindex], and the hashmap span index they are bound to
    in [newFreelist].

    Conventions.
    - [common.Pgid] and [common.Txid] are [uint64]: values of [N], with the
      wrap-around of the source's additions written as [wrap64].
    - Go's [int] is a 64-bit signed integer: values of [Z], additions and
      multiplications wrapped by [int_wrap].
    - Go maps are [gmap]s, [map[K]struct{}] is a [gset].
    - A method with receiver [f *freelist] is a computation in the monad
      [M]: it receives the manager, and either returns a value with the next
      manager or panics.
    - The struct fields [allocate], [free_count], [mergeSpans],
      [getFreePageIDs] and [readIDs] are assigned once, in [newFreelist], to
      the [hashmap*] methods; a call [f.readIDs(x)] is [hashmapReadIDs x]. *)

From Stdlib Require Import ZArith NArith Lia String.
From stdpp Require Import gmap list sorting.

Local Open Scope N_scope.
Set Warnings "-clear-no-such-hyp".

(** ** Machine integers *)

Abbreviation Pgid := N (only parsing).
Abbreviation Txid := N (only parsing).

Definition wrap64 (n : N) : N := n mod 2 ^ 64.

(** The largest [uint64]. *)
Definition max_uint64 : N := 2 ^ 64 - 1.

(** Go's [int] on the 64-bit targets: two's complement. *)
Definition int_wrap (z : Z) : Z := ((z + 2 ^ 63) mod 2 ^ 64 - 2 ^ 63)%Z.

(** [uint16(l)] for an [int] [l]. *)
Definition uint16_of_int (z : Z) : N := Z.to_N (z mod 2 ^ 16).

(** [common.Pgid(l)] for an [int] [l]. *)
Definition pgid_of_int (z : Z) : N := Z.to_N (z mod 2 ^ 64).

(** [int(x)] for a [uint64] [x]. *)
Definition int_of_uint64 (n : N) : Z := int_wrap (Z.of_N n).

(** [len(s)] of a slice. *)
Definition len {A} (l : list A) : Z := Z.of_nat (length l).

(** ** Outcomes

    A panic ends the call. [Undefined] is given where the model assigns no
    outcome: a loop that was given too few iterations, or an [unsafe] access
    outside the buffer of a page. *)

Inductive result (A : Type) : Type :=
  | Ok (a : A)
  | Panic (msg : string)
  | Undefined.
Arguments Ok {A} a.
Arguments Panic {A} msg.
Arguments Undefined {A}.

Definition is_panic {A} (r : result A) : Prop :=
  match r with Panic _ => True | _ => False end.

Definition is_ok {A} (r : result A) : Prop :=
  match r with Ok _ => True | _ => False end.

Definition rbind {A B} (r : result A) (k : A → result B) : result B :=
  match r with
  | Ok a => k a
  | Panic msg => Panic msg
  | Undefined => Undefined
  end.

(** ** Pages

    [common.Page] is declared in [internal/common], which is not among the
    sources; the header fields are the ones the methods called by
    [freelist.go] read and write, and [data] is the array of 64-bit slots
    that follow the header in the page's buffer. *)

Record Page : Type := mkPage {
  id : Pgid;
  flags : N;
  count_field : N;
  overflow : N;
  data : list Pgid
}.

(** ** The manager *)

(** [txPending]: two parallel slices. *)
Record txPending : Type := mkTxPending {
  ids : list Pgid;
  alloctx : list Txid
}.

Record freelist : Type := mkFreelist {
  free_ids : list Pgid;              (* field [ids] of the struct *)
  allocs : gmap N N;
  pending : gmap N txPending;
  cache : gset N;
  freemaps : gmap N (gset N);
  forwardMap : gmap N N;
  backwardMap : gmap N N;
  freePagesCount : N
}.

Definition set_free_ids (v : list Pgid) (f : freelist) : freelist :=
  mkFreelist v (allocs f) (pending f) (cache f) (freemaps f)
    (forwardMap f) (backwardMap f) (freePagesCount f).
Definition set_allocs (v : gmap N N) (f : freelist) : freelist :=
  mkFreelist (free_ids f) v (pending f) (cache f) (freemaps f)
    (forwardMap f) (backwardMap f) (freePagesCount f).
Definition set_pending (v : gmap N txPending) (f : freelist) : freelist :=
  mkFreelist (free_ids f) (allocs f) v (cache f) (freemaps f)
    (forwardMap f) (backwardMap f) (freePagesCount f).
Definition set_cache (v : gset N) (f : freelist) : freelist :=
  mkFreelist (free_ids f) (allocs f) (pending f) v (freemaps f)
    (forwardMap f) (backwardMap f) (freePagesCount f).
Definition set_spans (fm : gmap N (gset N)) (fw bw : gmap N N) (c : N)
    (f : freelist) : freelist :=
  mkFreelist (free_ids f) (allocs f) (pending f) (cache f) fm fw bw c.

(** [newFreelist]. *)
Definition newFreelist : freelist :=
  mkFreelist [] ∅ ∅ ∅ ∅ ∅ ∅ 0.

(** ** The monad of the methods *)

Definition M (A : Type) : Type := freelist → result (A * freelist).

Definition ret {A} (a : A) : M A := λ f, Ok (a, f).
Definition bind {A B} (m : M A) (k : A → M B) : M B :=
  λ f, rbind (m f) (λ af, k af.1 af.2).
Definition gets {A} (g : freelist → A) : M A := λ f, Ok (g f, f).
Definition modify (g : freelist → freelist) : M unit := λ f, Ok (tt, g f).
Definition panic {A} (msg : string) : M A := λ _, Panic msg.
Definition undefined {A} : M A := λ _, Undefined.
Definition lift {A} (r : result A) : M A := λ f, rbind r (λ a, Ok (a, f)).

Notation "x <- m ;; k" := (bind m (λ x, k))
  (at level 100, m at next level, right associativity).
Notation "m ;;; k" := (bind m (λ _, k))
  (at level 100, right associativity).

(** [for _, x := range l { body x }]. *)
Fixpoint for_each {A} (l : list A) (body : A → M unit) : M unit :=
  match l with
  | [] => ret tt
  | x :: l' => body x ;;; for_each l' body
  end.

(** The ids [start, start+1, ..]: [n] of them. *)
Fixpoint pgid_seq (start : N) (n : nat) : list N :=
  match n with
  | O => []
  | S n' => start :: pgid_seq (start + 1) n'
  end.

(** [sort.Sort(common.Pgids(s))]: ascending. *)
Definition sort_pgids (l : list Pgid) : list Pgid := merge_sort N.le l.

(** ** What [freelist.go] takes from [internal/common]

    The package is not among the sources. Its constants are parameters of
    the development; [assertions] says whether [common.Verify] runs the
    closure it is given (it does in builds with the assertions enabled). *)

Class Common : Type := {
  FreelistPageFlag : N;
  PageHeaderSize : Z;
  assertions : bool
}.

(** [unsafe.Sizeof(common.Pgid(0))]: a [uint64]. *)
Definition sizeof_pgid : Z := 8.

(** Go's [error]; [nil] is [None]. *)
Definition error : Type := option string.

(** [unsafe.Slice(ptr, n)] over the slots of a page: a negative length
    panics, a length beyond the buffer has no defined outcome. *)
Definition unsafe_slice (slots : list Pgid) (n : Z) : result (list Pgid) :=
  if (n <? 0)%Z then Panic "unsafe.Slice: len out of range"
  else if (len slots <? n)%Z then Undefined
  else Ok (take (Z.to_nat n) slots).

Section common.
Context `{Common}.

(** Modelled from the spec: [Page.IsFreelistPage] of [internal/common]; the
    header flag [FreelistPageFlag] identifies the page kind. *)
Definition IsFreelistPage (p : Page) : bool :=
  bool_decide (flags p = FreelistPageFlag).

(** Modelled from the spec: [Page.SetFlags] and [Page.SetCount] of
    [internal/common], the writers of the header fields. *)
Definition SetFlags (v : N) (p : Page) : Page :=
  mkPage (id p) v (count_field p) (overflow p) (data p).
Definition SetCount (v : N) (p : Page) : Page :=
  mkPage (id p) (flags p) v (overflow p) (data p).
Definition set_data (v : list Pgid) (p : Page) : Page :=
  mkPage (id p) (flags p) (count_field p) (overflow p) v.

(** Modelled from the spec: [Page.FreelistPageIds] of [internal/common],
    the decoder of the counting convention: a count field below [0xFFFF] is
    the number of ids, which fill the first slots; the count field [0xFFFF]
    says that the first slot holds the number of ids and the ids follow
    it. *)
Definition FreelistPageIds (p : Page) : result (list Pgid) :=
  if count_field p <? 0xFFFF then
    unsafe_slice (data p) (Z.of_N (count_field p))
  else
    match data p with
    | [] => Undefined
    | l :: rest => unsafe_slice rest (Z.of_N l)
    end.

(** Modelled from the spec: [common.Mergepgids], which writes the sorted
    merge of two sorted lists at the start of [dst]; [dst] must be long
    enough. *)
Definition Mergepgids (dst a b : list Pgid) : result (list Pgid) :=
  if (length dst <? length a + length b)%nat then Panic "mergepgids bad len"
  else
    let merged := list_merge N.le a b in
    Ok (merged ++ drop (length merged) dst).

(** Modelled from the spec: [common.Verify], which runs the check in the
    builds that enable the assertions. *)
Definition Verify (check : M unit) : M unit :=
  if assertions then check else ret tt.

(** ** The span index

    The [hashmap*] methods are in a file that is not among the sources. *)

(** Modelled from the spec: inserting the span [(start, size)] in the three
    span structures and the free count. *)
Definition addSpan (start size : N) (f : freelist) : freelist :=
  set_spans
    (<[size := {[start]} ∪ (freemaps f !!! size)]> (freemaps f))
    (<[start := size]> (forwardMap f))
    (<[start + size - 1 := size]> (backwardMap f))
    (freePagesCount f + size) f.

(** Modelled from the spec: removing the span [(start, size)] from the
    three span structures and the free count. *)
Definition delSpan (start size : N) (f : freelist) : freelist :=
  let bucket := (freemaps f !!! size) ∖ {[start]} in
  set_spans
    (if decide (bucket = ∅) then delete size (freemaps f)
     else <[size := bucket]> (freemaps f))
    (delete start (forwardMap f))
    (delete (start + size - 1) (backwardMap f))
    (freePagesCount f - size) f.

(** Modelled from the spec: [hashmapGetFreePageIDs], [free_page_ids()]:
    every id covered by some span, in ascending order. *)
Definition span_ids (sp : N * N) : list Pgid :=
  pgid_seq sp.1 (N.to_nat sp.2).
Definition free_page_ids (f : freelist) : list Pgid :=
  sort_pgids (map_to_list (forwardMap f) ≫= span_ids).
Definition hashmapGetFreePageIDs : M (list Pgid) := gets free_page_ids.

(** Modelled from the spec: [hashmapFreeCount], [free_count()]: the number
    of pages in spans, which the manager caches. *)
Definition hashmapFreeCount : M Z :=
  gets (λ f, int_of_uint64 (freePagesCount f)).

(** Modelled from the spec: one step of the merge algorithm (4.1), for one
    id: the left neighbour is looked up by its end [id-1], the right one by
    its start [id+1], both are removed, and the coalesced span is
    inserted; the id enters the cache. *)
Definition mergeWithExistingSpan (pid : Pgid) (f : freelist) : freelist :=
  let left := backwardMap f !! (pid - 1) in
  let right := forwardMap f !! (pid + 1) in
  let f1 := match left with
            | Some n => delSpan (pid - n) n f
            | None => f
            end in
  let f2 := match right with
            | Some n => delSpan (pid + 1) n f1
            | None => f1
            end in
  let start := match left with Some n => pid - n | None => pid end in
  let size := default 0 left + 1 + default 0 right in
  set_cache ({[pid]} ∪ cache f2) (addSpan start size f2).

(** Modelled from the spec: [hashmapMergeSpans], [merge(ids)]. *)
Definition hashmapMergeSpans (l : list Pgid) : M unit :=
  for_each l (λ pid, modify (mergeWithExistingSpan pid)).

(** Modelled from the spec: the spans of a list of ids, a new span starting
    where an id does not follow its predecessor. *)
Fixpoint runs_from (start size : N) (l : list Pgid) : list (N * N) :=
  match l with
  | [] => [(start, size)]
  | x :: l' =>
      if decide (x = start + size) then runs_from start (size + 1) l'
      else (start, size) :: runs_from x 1 l'
  end.
Definition spans_of_ids (l : list Pgid) : list (N * N) :=
  match l with
  | [] => []
  | x :: l' => runs_from x 1 l'
  end.

(** Modelled from the spec: the span index that holds exactly the spans of
    [l]. *)
Definition install_spans (l : list Pgid) (f : freelist) : freelist :=
  foldl (λ g sp, addSpan sp.1 sp.2 g) (set_spans ∅ ∅ ∅ 0 f)
    (spans_of_ids l).

(** All the pending ids. *)
Definition pending_ids (f : freelist) : list Pgid :=
  map_to_list (pending f) ≫= (λ kv, ids kv.2).

(** [reindex]. *)
Definition reindex : M unit :=
  l <- hashmapGetFreePageIDs;;
  modify (set_cache (list_to_set l));;;
  modify (λ f, set_cache (cache f ∪ list_to_set (pending_ids f)) f).

(** Modelled from the spec: [hashmapReadIDs]: the ids are installed as
    spans, consecutive runs coalesced, and the cache is rebuilt; the rebuild
    is [reindex], the one the source has, which is what [reload] needs of
    it. *)
Definition hashmapReadIDs (l : list Pgid) : M unit :=
  modify (install_spans l);;; reindex.

(** Modelled from the spec: [hashmapAllocate], the allocation algorithm
    (4.1): the smallest size [m ≥ n] that has a span, in it the span with
    the smallest start. *)
Definition min_pgid (s : gset N) : option N := head (sort_pgids (elements s)).
Definition candidate_sizes (n : N) (f : freelist) : list N :=
  sort_pgids
    (filter (λ m, n ≤ m ∧ freemaps f !!! m ≠ (∅ : gset N))
       (elements (dom (freemaps f)))).
Definition hashmapAllocate (txid : Txid) (n : N) : M Pgid :=
  sizes <- gets (candidate_sizes n);;
  match sizes with
  | [] => ret 0
  | m :: _ =>
      bucket <- gets (λ f, freemaps f !!! m);;
      match min_pgid bucket with
      | None => ret 0
      | Some start =>
          modify (delSpan start m);;;
          (if n <? m then modify (addSpan (start + n) (m - n)) else ret tt);;;
          modify (λ f, set_cache
                         (cache f ∖ list_to_set (pgid_seq start (N.to_nat n))) f);;;
          modify (λ f, set_allocs (<[start := txid]> (allocs f)) f);;;
          ret start
      end
  end.

(** ** The methods of [freelist.go] *)

(** [pending_count]. *)
Definition pending_count_of (f : freelist) : Z :=
  foldl (λ c kv, int_wrap (c + len (ids kv.2))) 0%Z (map_to_list (pending f)).
Definition pending_count : M Z := gets pending_count_of.

(** [count]. *)
Definition count : M Z :=
  a <- hashmapFreeCount;;
  b <- pending_count;;
  ret (int_wrap (a + b)).

(** [size]. *)
Definition size : M Z :=
  n <- count;;
  let n := if (0xFFFF <=? n)%Z then int_wrap (n + 1) else n in
  ret (int_wrap (PageHeaderSize + int_wrap (sizeof_pgid * n))).

(** [copyall]: the slice [dst] is returned as the call leaves it. The order
    in which the buckets are visited is lost in the sort. *)
Definition copyall (dst : list Pgid) : M (list Pgid) :=
  m <- gets (λ f, sort_pgids (pending_ids f));;
  free_l <- hashmapGetFreePageIDs;;
  lift (Mergepgids dst free_l m).

(** The body of the loop of [free]. *)
Definition free_body (txid allocTxid : Txid) (i : Pgid) : M unit :=
  c <- gets cache;;
  if decide (i ∈ c) then panic "page already freed"
  else
    modify (λ f, set_pending
      (alter (λ txp, mkTxPending (ids txp ++ [i]) (alloctx txp ++ [allocTxid]))
         txid (pending f)) f);;;
    modify (λ f, set_cache ({[i]} ∪ cache f) f).

(** [for id := lo; id <= hi; id++], the increment wrapping as a [uint64]
    does. *)
Fixpoint free_loop (fuel : nat) (txid allocTxid : Txid) (i hi : Pgid) : M unit :=
  match fuel with
  | O => undefined
  | S fuel' =>
      if i <=? hi then
        free_body txid allocTxid i;;;
        free_loop fuel' txid allocTxid (wrap64 (i + 1)) hi
      else ret tt
  end.

(** [free]. The loop leaves after at most [overflow + 2] tests of its
    condition, unless its bound is the largest [uint64]. *)
Definition free (txid : Txid) (p : Page) : M unit :=
  if id p <=? 1 then panic "cannot free page 0 or 1"
  else
    pend <- gets pending;;
    match pend !! txid with
    | None => modify (set_pending (<[txid := mkTxPending [] []]> pend))
    | Some _ => ret tt
    end;;;
    al <- gets allocs;;
    let allocTxid := default 0 (al !! id p) in
    Verify (if decide (allocTxid = txid)
            then panic "free: freed page was allocated by the same transaction"
            else ret tt);;;
    match al !! id p with
    | Some _ => modify (set_allocs (delete (id p) al))
    | None => ret tt
    end;;;
    free_loop (N.to_nat (overflow p) + 2) txid allocTxid
      (id p) (wrap64 (id p + overflow p)).

(** The test of [release]: no reader sees the page. *)
Definition safe2Release (rtxids : list Txid) (atxid ftxid : Txid) : bool :=
  forallb (λ rtxid, negb ((atxid <=? rtxid) && (rtxid <? ftxid))) rtxids.

(** [s[i] = s[len(s)-1]; s = s[:len(s)-1]]. *)
Definition swap_remove {A} (i : nat) (l : list A) : list A :=
  match last l with
  | Some x => take (length l - 1) (<[i := x]> l)
  | None => l
  end.

(** The inner loop of [release], from index [i]; [m] collects the released
    ids. An index outside [alloctx] panics. *)
Fixpoint release_loop (fuel : nat) (rtxids : list Txid) (ftxid : Txid)
    (i : nat) (txp : txPending) (m : list Pgid) : result (txPending * list Pgid) :=
  match fuel with
  | O => Undefined
  | S fuel' =>
      match ids txp !! i with
      | None => Ok (txp, m)
      | Some pid =>
          match alloctx txp !! i with
          | None => Panic "index out of range"
          | Some atxid =>
              if safe2Release rtxids atxid ftxid then
                release_loop fuel' rtxids ftxid i
                  (mkTxPending (swap_remove i (ids txp))
                     (swap_remove i (alloctx txp)))
                  (m ++ [pid])
              else release_loop fuel' rtxids ftxid (S i) txp m
          end
      end
  end.

(** One bucket of [release]. *)
Definition release_bucket (rtxids : list Txid) (ftxid : Txid)
    (m : list Pgid) : M (list Pgid) :=
  pend <- gets pending;;
  match pend !! ftxid with
  | None => ret m
  | Some txp =>
      r <- lift (release_loop (S (length (ids txp))) rtxids ftxid 0 txp m);;
      (if decide (length (ids r.1) = 0%nat)
       then modify (set_pending (delete ftxid pend))
       else modify (set_pending (<[ftxid := r.1]> pend)));;;
      ret r.2
  end.

(** The outer loop of [release], the buckets visited in [order]. *)
Fixpoint release_buckets (rtxids : list Txid) (order : list Txid)
    (m : list Pgid) : M (list Pgid) :=
  match order with
  | [] => ret m
  | ftxid :: order' =>
      m' <- release_bucket rtxids ftxid m;;
      release_buckets rtxids order' m'
  end.

(** [release], for an order of visit of the map [pending]; Go leaves the
    order of a [range] over a map unspecified. *)
Definition release_in (order : list Txid) (rtxids : list Txid) : M unit :=
  m <- release_buckets rtxids order [];;
  hashmapMergeSpans m.

Definition release (rtxids : list Txid) : M unit :=
  order <- gets (λ f, (map_to_list (pending f)).*1);;
  release_in order rtxids.

(** The loop of [rollback], at index [i]. *)
Fixpoint rollback_loop (txid : Txid) (atx : list Txid) (i : nat)
    (l : list Pgid) : M unit :=
  match l with
  | [] => ret tt
  | pgid :: l' =>
      modify (λ f, set_cache (cache f ∖ {[pgid]}) f);;;
      match atx !! i with
      | None => panic "index out of range"
      | Some tx =>
          if decide (tx = 0) then rollback_loop txid atx (S i) l'
          else if decide (tx ≠ txid) then
            modify (λ f, set_allocs (<[pgid := tx]> (allocs f)) f);;;
            rollback_loop txid atx (S i) l'
          else
            panic "rollback: freed page was allocated by the same transaction"
      end
  end.

(** [rollback]. *)
Definition rollback (txid : Txid) : M unit :=
  pend <- gets pending;;
  match pend !! txid with
  | None => ret tt
  | Some txp =>
      rollback_loop txid (alloctx txp) 0 (ids txp);;;
      modify (λ f, set_pending (delete txid (pending f)) f)
  end.

(** [freed]. *)
Definition freed (pgId : Pgid) : M bool :=
  gets (λ f, bool_decide (pgId ∈ cache f)).

(** [read]. *)
Definition read (p : Page) : M unit :=
  if negb (IsFreelistPage p) then panic "invalid freelist page"
  else
    l <- lift (FreelistPageIds p);;
    if decide (length l = 0%nat) then modify (set_free_ids [])
    else hashmapReadIDs (sort_pgids l).

(** [write]: the page is returned as the call leaves it, with the error. *)
Definition write (p : Page) : M (Page * error) :=
  let p := SetFlags FreelistPageFlag p in
  l <- count;;
  if decide (l = 0%Z) then ret (SetCount (uint16_of_int l) p, None)
  else if (l <? 0xFFFF)%Z then
    let p := SetCount (uint16_of_int l) p in
    dst <- lift (unsafe_slice (data p) l);;
    dst' <- copyall dst;;
    ret (set_data (dst' ++ drop (length dst') (data p)) p, None)
  else
    let p := SetCount 0xFFFF p in
    dst <- lift (unsafe_slice (data p) (int_wrap (l + 1)));;
    match dst with
    | [] => panic "index out of range"
    | _ :: tl =>
        tl' <- copyall tl;;
        let dst' := pgid_of_int l :: tl' in
        ret (set_data (dst' ++ drop (length dst') (data p)) p, None)
    end.

(** The filter of [reload] and [noSyncReload]: the ids that are not
    pending. *)
Definition not_pending (l : list Pgid) : M (list Pgid) :=
  pcache <- gets (λ f, (list_to_set (pending_ids f) : gset N));;
  ret (filter (λ i, i ∉ pcache) l).

(** [reload]. *)
Definition reload (p : Page) : M unit :=
  read p;;;
  l <- hashmapGetFreePageIDs;;
  a <- not_pending l;;
  hashmapReadIDs a.

(** [noSyncReload]. *)
Definition noSyncReload (l : list Pgid) : M unit :=
  a <- not_pending l;;
  hashmapReadIDs a.

(** ** Vocabulary of the statements *)

(** The value of [count()] in a state. *)
Definition count_of (f : freelist) : Z :=
  int_wrap (int_of_uint64 (freePagesCount f) + pending_count_of f).

(** The slots of the array for [l] ids, under the counting convention. *)
Definition slots_needed (l : Z) : Z := if (l <? 0xFFFF)%Z then l else (l + 1)%Z.

(** The cached counts are those of the ids the manager holds. *)
Definition count_exact (f : freelist) : Prop :=
  count_of f = Z.of_nat (length (free_page_ids f) + length (pending_ids f)).

(** The buffer of [p] holds the array [write] stores; a slice is shorter
    than [2^63]. *)
(** The ids the loop of [free] is written to visit: from [id] to
    [id + overflow], the sum being the [uint64] one. *)
Definition free_range (p : Page) : list Pgid :=
  pgid_seq (id p) (N.to_nat (wrap64 (id p + overflow p) + 1 - id p)).

(** The bucket of a transaction once [l] is appended to it for the
    allocator [a]. *)
Definition append_pending (l : list Pgid) (a : Txid) (txp : txPending) : txPending :=
  mkTxPending (ids txp ++ l) (alloctx txp ++ replicate (length l) a).

(** The manager when the loop of [free] starts: the transaction has a
    bucket, and the page has no allocator any more. *)
Definition free_prepared (txid : Txid) (p : Page) (f : freelist) : freelist :=
  set_allocs (delete (id p) (allocs f))
    (set_pending
       (match pending f !! txid with
        | None => <[txid := mkTxPending [] []]> (pending f)
        | Some _ => pending f
        end) f).

(** The entries of a bucket: each id with its allocator. *)
Definition entries (txp : txPending) : list (Pgid * Txid) :=
  zip (ids txp) (alloctx txp).

(** [allocs] once the entries with a known allocator are given back to
    it, in the order of the bucket. *)
Definition restore_allocs (ents : list (Pgid * Txid)) (m : gmap N N) : gmap N N :=
  foldl (λ m e, if decide (e.2 = 0) then m else <[e.1 := e.2]> m) m ents.

(** The size [m] has at least one span. *)
Definition has_span (f : freelist) (m : N) : Prop :=
  freemaps f !!! m ≠ (∅ : gset N).

(** The manager once [n] pages are taken for [txid] at the start of the
    span [(start, m)]. *)
Definition allocated (txid : Txid) (start n m : N) (f : freelist) : freelist :=
  let f1 := delSpan start m f in
  let f2 := if n <? m then addSpan (start + n) (m - n) f1 else f1 in
  set_allocs (<[start := txid]> (allocs f2))
    (set_cache (cache f2 ∖ list_to_set (pgid_seq start (N.to_nat n))) f2).

(** The id [x] is in a span of the map from starts to sizes. *)
Definition covers (fw : gmap N N) (x : N) : Prop :=
  ∃ st n, fw !! st = Some n ∧ st ≤ x < st + n.

(** The id [x] is in a span of a list of spans. *)
Definition in_spans (spans : list (N * N)) (x : N) : Prop :=
  ∃ sp, sp ∈ spans ∧ sp.1 ≤ x < sp.1 + sp.2.

(** No two spans of the map overlap or touch, and none is empty. *)
Definition coalesced (fw : gmap N N) : Prop :=
  ∀ st n, fw !! st = Some n →
    1 ≤ n ∧ ∀ st' n', fw !! st' = Some n' → st < st' → st + n < st'.

(** The manager [hashmapReadIDs] leaves. *)
Definition ids_installed (l : list Pgid) (f : freelist) : freelist :=
  set_cache (list_to_set (free_page_ids (install_spans l f))
             ∪ list_to_set (pending_ids f))
    (install_spans l f).

(** The two maps of the span index agree: no span is empty, and a span
    known by its end is known by its start. *)
Definition spans_wf (f : freelist) : Prop :=
  (∀ st n, forwardMap f !! st = Some n → 1 ≤ n) ∧
  (∀ e n, backwardMap f !! e = Some n →
     1 ≤ n ≤ e + 1 ∧ forwardMap f !! (e + 1 - n) = Some n).

(** An entry of the bucket of [ftxid] that no reader of [rtxids] sees. *)
Definition safe_entry (rtxids : list Txid) (ftxid : Txid)
    (e : Pgid * Txid) : Prop :=
  safe2Release rtxids e.2 ftxid = true.

Global Instance safe_entry_dec rtxids ftxid e :
  Decision (safe_entry rtxids ftxid e).
Proof. unfold safe_entry. apply _. Defined.

(** The ids [release] takes out of the bucket of [t]. *)
Definition released_ids (rtxids : list Txid) (f : freelist) (t : Txid) : list Pgid :=
  match pending f !! t with
  | Some txp => (filter (safe_entry rtxids t) (entries txp)).*1
  | None => []
  end.

(** The entries [release] leaves in a bucket. *)
Definition kept_entries (rtxids : list Txid) (t : Txid) (txp : txPending) :
    list (Pgid * Txid) :=
  filter (λ e, ¬ safe_entry rtxids t e) (entries txp).

(** The pending table is well formed: the two slices of a bucket have one
    length, an id is pending once, and no pending id is in a span. *)
Definition pending_wf (f : freelist) : Prop :=
  (∀ t txp, pending f !! t = Some txp →
     length (ids txp) = length (alloctx txp) ∧ NoDup (ids txp) ∧
     ∀ x, x ∈ ids txp → ¬ covers (forwardMap f) x) ∧
  (∀ t1 t2 txp1 txp2 x,
     pending f !! t1 = Some txp1 → pending f !! t2 = Some txp2 →
     x ∈ ids txp1 → x ∈ ids txp2 → t1 = t2).

Definition page_fits (f : freelist) (p : Page) : Prop :=
  (slots_needed (count_of f) ≤ len (data p) < 2 ^ 63)%Z.

(** The ids [copyall] collects: the free ones and the pending ones, in one
    sorted list. *)
Definition all_ids (f : freelist) : list Pgid :=
  list_merge N.le (free_page_ids f) (sort_pgids (pending_ids f)).

(** The array that serializes a state under the counting convention. *)
Definition stored_array (f : freelist) : list Pgid :=
  if (count_of f <? 0xFFFF)%Z then all_ids f
  else pgid_of_int (count_of f) :: all_ids f.

(** The header count that serializes a state. *)
Definition stored_count (f : freelist) : N :=
  if (count_of f <? 0xFFFF)%Z then uint16_of_int (count_of f) else 0xFFFF.

(** The page [p] once the state [f] is serialized in it. *)
Definition written_page (f : freelist) (p : Page) : Page :=
  mkPage (id p) FreelistPageFlag (stored_count f) (overflow p)
    (stored_array f ++ drop (length (stored_array f)) (data p)).

End common.

(** ** The invariant of the manager *)

(** The cache holds the ids that are in a span or pending, and no other. *)
Definition cache_wf (f : freelist) : Prop :=
  ∀ x, x ∈ cache f ↔ covers (forwardMap f) x ∨ x ∈ pending_ids f.

(** What the operations keep: the span maps agree, the pending table is
    well formed, and the cache is the one [reindex] computes. *)
Definition manager_inv (f : freelist) : Prop :=
  spans_wf f ∧ pending_wf f ∧ cache_wf f.

(** In the pending table the two slices of a bucket have one length and an
    id is pending once. *)
Definition pending_distinct (f : freelist) : Prop :=
  (∀ t txp, pending f !! t = Some txp →
     length (ids txp) = length (alloctx txp) ∧ NoDup (ids txp)) ∧
  (∀ t1 t2 txp1 txp2 x,
     pending f !! t1 = Some txp1 → pending f !! t2 = Some txp2 →
     x ∈ ids txp1 → x ∈ ids txp2 → t1 = t2).

(** * Concrete states *)

(** The constants as the engine has them, assertions off and on. *)
Definition common_release : Common :=
  {| FreelistPageFlag := 0x10; PageHeaderSize := 16; assertions := false |}.
Definition common_debug : Common :=
  {| FreelistPageFlag := 0x10; PageHeaderSize := 16; assertions := true |}.

(** A manager with the span [(10, 2)] and the page 20, allocated by
    transaction 3, pending under transaction 7. *)
Definition st_demo : freelist :=
  mkFreelist [] ∅ {[ 7 := mkTxPending [20] [3] ]} {[ 10; 11; 20 ]}
    {[ 2 := {[ 10 ]} ]} {[ 10 := 2 ]} {[ 11 := 2 ]} 2.

(** A page with four slots. *)
Definition pg_demo : Page := mkPage 5 0 0 0 [0; 0; 0; 0].

(** The page 30 with one overflow page. *)
Definition pg_30 : Page := mkPage 30 0 0 1 [].

(** [st_demo] once the transaction 7 has freed [pg_30]. *)
Definition st_freed_30 : freelist :=
  mkFreelist [] ∅ {[ 7 := mkTxPending [20; 30; 31] [3; 0; 0] ]}
    {[ 10; 11; 20; 30; 31 ]}
    {[ 2 := {[ 10 ]} ]} {[ 10 := 2 ]} {[ 11 := 2 ]} 2.

(** A manager in which the page 10 was allocated by the transaction 7. *)
Definition st_alloc_10 : freelist := set_allocs {[ 10 := 7 ]} newFreelist.

(** Scenario 6: the page 50, allocated by the transaction 3, pending under
    the transaction 7. *)
Definition st_pending_50 : freelist :=
  mkFreelist [] ∅ {[ 7 := mkTxPending [50] [3] ]} {[ 50 ]} ∅ ∅ ∅ 0.

(** Scenario 3: no span; the pages 100 and 101, allocated by the
    transactions 3 and 8, pending under the transaction 10. *)
Definition st_release : freelist :=
  mkFreelist [] ∅ {[ 10 := mkTxPending [100; 101] [3; 8] ]} {[ 100; 101 ]}
    ∅ ∅ ∅ 0.

(** A Freelist page that stores the id 40, and one that stores no id. *)
Definition pg_40 : Page := mkPage 9 0x10 1 0 [40].
Definition pg_empty : Page := mkPage 9 0x10 0 0 [].

(** Scenario 4: the spans [(100, 2)], [(200, 2)] and [(300, 4)]. *)
Definition st_spans : freelist :=
  mkFreelist [] ∅ ∅ {[ 100; 101; 200; 201; 300; 301; 302; 303 ]}
    {[ 2 := {[ 100; 200 ]}; 4 := {[ 300 ]} ]}
    {[ 100 := 2; 200 := 2; 300 := 4 ]}
    {[ 101 := 2; 201 := 2; 303 := 4 ]} 8.

(** * Properties *)

Ltac munfold :=
  unfold bind, ret, gets, modify, panic, undefined, lift, rbind in *;
  simpl in *.

Section properties.
Context `{Common}.

Lemma count_run (f : freelist) : count f = Ok (count_of f, f).
Proof. reflexivity. Qed.

Lemma copyall_frame (dst : list Pgid) (f : freelist) r f' :
  copyall dst f = Ok (r, f') → f' = f.
Proof.
  unfold copyall, hashmapGetFreePageIDs. munfold.
  destruct (Mergepgids _ _ _); simpl; congruence.
Qed.

Lemma copyall_run (dst : list Pgid) (f : freelist) :
  (length (free_page_ids f) + length (pending_ids f) ≤ length dst)%nat →
  copyall dst f =
    Ok (list_merge N.le (free_page_ids f) (sort_pgids (pending_ids f))
          ++ drop (length (free_page_ids f) + length (pending_ids f)) dst, f).
Proof.
  intros Hlen. unfold copyall, hashmapGetFreePageIDs, Mergepgids. munfold.
  assert (Hs : length (sort_pgids (pending_ids f)) = length (pending_ids f)).
  { unfold sort_pgids. apply Permutation_length, merge_sort_Permutation. }
  rewrite Hs.
  destruct (Nat.ltb_spec (length dst)
              (length (free_page_ids f) + length (pending_ids f))) as [Hlt|_];
    [lia|]. simpl.
  assert (Hm : length (list_merge N.le (free_page_ids f)
                        (sort_pgids (pending_ids f)))
               = (length (free_page_ids f) + length (pending_ids f))%nat).
  { rewrite (Permutation_length (merge_Permutation _ _ _)).
    by rewrite length_app, Hs. }
  by rewrite Hm.
Qed.

Lemma int_wrap_small (z : Z) :
  (- 2 ^ 63 ≤ z < 2 ^ 63)%Z → int_wrap z = z.
Proof. intros Hz. unfold int_wrap. rewrite Z.mod_small; lia. Qed.

Lemma int_wrap_range (z : Z) : (- 2 ^ 63 ≤ int_wrap z < 2 ^ 63)%Z.
Proof.
  unfold int_wrap.
  pose proof (Z.mod_pos_bound (z + 2 ^ 63) (2 ^ 64)). lia.
Qed.

Lemma copyall_length (dst : list Pgid) (f : freelist) r f' :
  copyall dst f = Ok (r, f') → length r = length dst.
Proof.
  unfold copyall, hashmapGetFreePageIDs, Mergepgids. munfold.
  destruct (Nat.ltb_spec (length dst)
    (length (free_page_ids f) + length (sort_pgids (pending_ids f))))
    as [|Hle]; simpl; [done|].
  intros [= <- _]. rewrite length_app, length_drop.
  rewrite (Permutation_length (merge_Permutation _ _ _)), length_app. lia.
Qed.

Lemma unsafe_slice_ok (slots : list Pgid) (n : Z) (r : list Pgid) :
  unsafe_slice slots n = Ok r →
  (0 ≤ n ≤ len slots)%Z ∧ r = take (Z.to_nat n) slots ∧ len r = n.
Proof.
  unfold unsafe_slice, len.
  destruct (Z.ltb_spec n 0); [done|].
  destruct (Z.ltb_spec (Z.of_nat (length slots)) n); [done|].
  intros [= <-]. rewrite length_take. split_and!; [lia|lia|done|lia].
Qed.

Lemma all_ids_length (f : freelist) :
  length (all_ids f)
  = (length (free_page_ids f) + length (pending_ids f))%nat.
Proof.
  unfold all_ids.
  rewrite (Permutation_length (merge_Permutation _ _ _)), length_app.
  f_equal. apply Permutation_length, merge_sort_Permutation.
Qed.

(** What [write] returns on a state whose counts are exact, in a page that
    holds the array. *)
Lemma write_run (p : Page) (f : freelist) :
  count_exact f → page_fits f p →
  write p f = Ok ((written_page f p, None), f).
Proof.
  unfold count_exact, page_fits, slots_needed. intros Hc [Hfit Hmax].
  pose proof (all_ids_length f) as Hall.
  unfold write, written_page, stored_array, stored_count.
  unfold bind at 1. rewrite count_run. simpl.
  destruct (decide (count_of f = 0%Z)) as [H0|H0].
  - unfold ret. rewrite H0. simpl.
    assert (Hnil : all_ids f = []).
    { apply length_zero_iff_nil. lia. }
    rewrite Hnil. simpl. rewrite drop_0. by destruct p.
  - destruct (Z.ltb_spec (count_of f) 65535) as [Hlt|Hge].
    + unfold bind, lift at 1, unsafe_slice. simpl.
      destruct (Z.ltb_spec (count_of f) 0); [lia|].
      destruct (Z.ltb_spec (len (data p)) (count_of f)); [lia|]. simpl.
      rewrite copyall_run by (rewrite length_take; unfold len in *; lia).
      simpl. unfold ret, SetCount, SetFlags, set_data. simpl.
      do 3 f_equal.
      fold (all_ids f).
      replace (length (free_page_ids f) + length (pending_ids f))%nat
        with (Z.to_nat (count_of f)) by lia.
      rewrite drop_ge by (rewrite length_take; lia). rewrite app_nil_r.
      by rewrite Hall.
    + assert (Hw : int_wrap (count_of f + 1) = (count_of f + 1)%Z).
      { apply int_wrap_small. unfold len in *. lia. }
      unfold bind, lift at 1, unsafe_slice. simpl. rewrite Hw.
      destruct (Z.ltb_spec (count_of f + 1) 0); [lia|].
      destruct (Z.ltb_spec (len (data p)) (count_of f + 1)); [lia|]. simpl.
      destruct (data p) as [|d0 rest] eqn:Hd; [unfold len in *; simpl in *; lia|].
      replace (Z.to_nat (count_of f + 1)) with (S (Z.to_nat (count_of f))) by lia.
      simpl.
      rewrite copyall_run
        by (rewrite length_take; unfold len in *; simpl in *; lia).
      simpl. unfold ret, SetCount, SetFlags, set_data. simpl.
      fold (all_ids f).
      replace (length (free_page_ids f) + length (pending_ids f))%nat
        with (Z.to_nat (count_of f)) by lia.
      rewrite drop_ge by (rewrite length_take; lia). by rewrite app_nil_r.
Qed.

(** Whenever [write] returns: the manager is the one it was given, the
    error is [nil], and the page has its array and count as the counting
    convention has them. *)
Lemma write_ok_inv (p : Page) (f : freelist) r f' :
  write p f = Ok (r, f') →
  f' = f ∧ r.2 = None ∧ id r.1 = id p ∧ overflow r.1 = overflow p ∧
  flags r.1 = FreelistPageFlag ∧
  count_field r.1 = stored_count f ∧
  ∃ arr, data r.1 = arr ++ drop (length arr) (data p) ∧
         len arr = slots_needed (count_of f) ∧
         ((0xFFFF ≤ count_of f)%Z → head arr = Some (pgid_of_int (count_of f))).
Proof.
  unfold write, stored_count, slots_needed.
  unfold bind at 1. rewrite count_run. simpl.
  destruct (decide (count_of f = 0%Z)) as [H0|H0].
  - unfold ret. intros [= <- <-]. rewrite H0. simpl.
    split_and!; try done. exists []. simpl. by rewrite drop_0.
  - destruct (Z.ltb_spec (count_of f) 65535) as [Hlt|Hge].
    + unfold bind, lift at 1. simpl.
      destruct (unsafe_slice (data p) (count_of f)) as [dst| |] eqn:Hs;
        simpl; try done.
      apply unsafe_slice_ok in Hs as (Hr & -> & Hl).
      destruct (copyall _ f) as [[dst' f1]| |] eqn:Hc; simpl; try done.
      pose proof (copyall_frame _ _ _ _ Hc) as ->.
      apply copyall_length in Hc.
      unfold ret. intros [= <- <-]. simpl.
      split_and!; try done. exists dst'. split_and!; [done| |lia].
      unfold len in *. lia.
    + unfold bind, lift at 1. simpl.
      destruct (unsafe_slice (data p) (int_wrap (count_of f + 1)))
        as [dst| |] eqn:Hs; simpl; try done.
      apply unsafe_slice_ok in Hs as (Hr & -> & Hl).
      assert (Hw : int_wrap (count_of f + 1) = (count_of f + 1)%Z).
      { pose proof (int_wrap_range
          (int_of_uint64 (freePagesCount f) + pending_count_of f)) as Hb.
        fold (count_of f) in Hb.
        destruct (decide (count_of f = 2 ^ 63 - 1)%Z) as [Htop|Hlow].
        - rewrite Htop in Hr.
          assert (Hm : int_wrap (2 ^ 63 - 1 + 1) = (- 2 ^ 63)%Z) by done.
          rewrite Hm in Hr. lia.
        - apply int_wrap_small. lia. }
      rewrite Hw in *.
      destruct (take _ (data p)) as [|d0 tl] eqn:Ht; simpl; [done|].
      destruct (copyall tl f) as [[tl' f1]| |] eqn:Hc; simpl; try done.
      pose proof (copyall_frame _ _ _ _ Hc) as ->.
      apply copyall_length in Hc.
      unfold ret. intros [= <- <-]. simpl.
      split_and!; try done.
      exists (pgid_of_int (count_of f) :: tl'). simpl. split_and!; [done| |done].
      unfold len in *. simpl in *. lia.
Qed.

(** C10. [write] changes only the page it is given, and of it only the
    flags, the count and the array of ids (its id and overflow stay): when
    it returns, every field of the manager is as before and the error is
    [nil]; and it does return, on every manager whose cached counts are
    exact, for every page that holds the array. *)
Theorem write_frame (p : Page) (f : freelist) :
  (∀ r f', write p f = Ok (r, f') →
     f' = f ∧ r.2 = None ∧ id r.1 = id p ∧ overflow r.1 = overflow p) ∧
  (count_exact f → page_fits f p →
     ∃ p', write p f = Ok ((p', None), f)).
Proof.
  split.
  - intros r f' Hw. apply write_ok_inv in Hw. tauto.
  - intros Hc Hp. eexists. by apply write_run.
Qed.

Lemma size_run (f : freelist) :
  (0 ≤ PageHeaderSize)%Z → (0 ≤ count_of f)%Z →
  (PageHeaderSize + sizeof_pgid * (count_of f + 1) < 2 ^ 63)%Z →
  size f = Ok ((PageHeaderSize + sizeof_pgid * slots_needed (count_of f))%Z, f).
Proof.
  unfold sizeof_pgid, slots_needed. intros Hh H0 Hb.
  unfold size. unfold bind at 1. rewrite count_run. simpl.
  unfold ret, sizeof_pgid.
  destruct (Z.leb_spec 65535 (count_of f)), (Z.ltb_spec (count_of f) 65535);
    try lia.
  - rewrite (int_wrap_small (count_of f + 1)) by lia.
    rewrite (int_wrap_small (8 * _)) by lia.
    by rewrite int_wrap_small by lia.
  - rewrite (int_wrap_small (8 * _)) by lia.
    by rewrite int_wrap_small by lia.
Qed.

(** C6. The counting convention, with [L = count()]: a page [write] returns
    has the count [L] and an array of [L] slots when [L < 0xFFFF] (count 0
    and no slot when [L = 0]), the count [0xFFFF] and an array of [L + 1]
    slots, the first of which is [L], when [L ≥ 0xFFFF]; on a manager whose
    counts are exact the slots after the count are the free and the pending
    ids; and [size()] is [header_size + 8 * (L if L < 0xFFFF else L + 1)],
    as long as that number is an [int]. *)
Theorem counting_convention (p : Page) (f : freelist) :
  count f = Ok (count_of f, f) ∧
  (∀ r f', write p f = Ok (r, f') →
     ∃ arr, data r.1 = arr ++ drop (length arr) (data p) ∧
       if (count_of f <? 0xFFFF)%Z
       then Z.of_N (count_field r.1) = count_of f ∧ len arr = count_of f
       else count_field r.1 = 0xFFFF ∧ len arr = (count_of f + 1)%Z ∧
            head arr = Some (Z.to_N (count_of f))) ∧
  (count_exact f → page_fits f p →
     write p f = Ok ((written_page f p, None), f) ∧
     stored_array f =
       if (count_of f <? 0xFFFF)%Z then all_ids f
       else Z.to_N (count_of f) :: all_ids f) ∧
  ((0 ≤ PageHeaderSize)%Z → (0 ≤ count_of f)%Z →
   (PageHeaderSize + 8 * (count_of f + 1) < 2 ^ 63)%Z →
   size f = Ok ((PageHeaderSize +
                 8 * (if (count_of f <? 0xFFFF)%Z then count_of f
                      else count_of f + 1))%Z, f)).
Proof.
  assert (Hpg : (0xFFFF ≤ count_of f)%Z →
                pgid_of_int (count_of f) = Z.to_N (count_of f)).
  { intros Hge. unfold pgid_of_int. rewrite Z.mod_small; [done|].
    pose proof (int_wrap_range
      (int_of_uint64 (freePagesCount f) + pending_count_of f)) as Hb.
    fold (count_of f) in Hb. lia. }
  split_and!.
  - apply count_run.
  - intros r f' Hw. apply write_ok_inv in Hw
      as (_ & _ & _ & _ & _ & Hcnt & arr & Hd & Hl & Hh).
    exists arr. split; [done|].
    unfold stored_count, slots_needed in *.
    destruct (Z.ltb_spec (count_of f) 65535) as [Hlt|Hge].
    + split; [|done]. rewrite Hcnt. unfold uint16_of_int.
      assert (0 ≤ count_of f)%Z by (unfold len in Hl; lia).
      rewrite Z.mod_small by lia. lia.
    + split_and!; [done|done|]. rewrite Hh by done. by rewrite Hpg.
  - intros Hc Hp. split; [by apply write_run|].
    unfold stored_array. destruct (Z.ltb_spec (count_of f) 65535); [done|].
    by rewrite Hpg.
  - intros. by apply size_run.
Qed.

(** ** [free] *)

Lemma elem_of_pgid_seq (i start : N) (n : nat) :
  i ∈ pgid_seq start n ↔ start ≤ i < start + N.of_nat n.
Proof.
  revert start. induction n as [|n IH]; intros start; simpl.
  - rewrite elem_of_nil. lia.
  - rewrite elem_of_cons, IH. lia.
Qed.

Lemma NoDup_pgid_seq (start : N) (n : nat) : NoDup (pgid_seq start n).
Proof.
  revert start. induction n as [|n IH]; intros start; simpl.
  - constructor.
  - constructor; [|apply IH]. rewrite elem_of_pgid_seq. lia.
Qed.

Lemma length_pgid_seq (start : N) (n : nat) : length (pgid_seq start n) = n.
Proof. revert start. induction n; intros; simpl; auto. Qed.

Lemma elem_of_free_range (p : Page) (i : N) :
  i ∈ free_range p ↔ id p ≤ i ≤ wrap64 (id p + overflow p).
Proof. unfold free_range. rewrite elem_of_pgid_seq. lia. Qed.

Lemma wrap64_small (n : N) : n < 2 ^ 64 → wrap64 n = n.
Proof. intros. unfold wrap64. by apply N.mod_small. Qed.

Lemma wrap64_bound (n : N) : wrap64 n < 2 ^ 64.
Proof. unfold wrap64. by apply N.mod_lt. Qed.

(** The body of the loop over a list of distinct ids: it panics when one of
    them is cached, and otherwise appends them all. *)
Lemma for_each_free_body (txid a : Txid) (l : list Pgid) (f : freelist) :
  NoDup l →
  match for_each l (free_body txid a) f with
  | Ok (_, f') =>
      (∀ i, i ∈ l → i ∉ cache f) ∧
      pending f' = alter (append_pending l a) txid (pending f) ∧
      cache f' = cache f ∪ list_to_set l ∧
      allocs f' = allocs f ∧ free_ids f' = free_ids f ∧
      freemaps f' = freemaps f ∧ forwardMap f' = forwardMap f ∧
      backwardMap f' = backwardMap f ∧ freePagesCount f' = freePagesCount f
  | Panic _ => ∃ i, i ∈ l ∧ i ∈ cache f
  | Undefined => False
  end.
Proof.
  revert f. induction l as [|x l IH]; intros f Hnd; simpl.
  - unfold ret. split_and!; try done.
    + set_solver.
    + symmetry. apply map_eq. intros t.
      destruct (decide (txid = t)) as [->|Hne];
        [rewrite lookup_alter_eq|by rewrite lookup_alter_ne].
      destruct (pending f !! t) as [[]|]; simpl; [|done].
      unfold append_pending. simpl. by rewrite !app_nil_r.
    + set_solver.
  - apply NoDup_cons in Hnd as [Hx Hnd].
    unfold bind at 1, free_body. munfold.
    destruct (decide (x ∈ cache f)) as [Hin|Hin]; simpl.
    { exists x. set_solver. }
    match goal with |- context [for_each l _ ?g] =>
      specialize (IH g Hnd); destruct (for_each l _ g) as [[u f']| |] end;
      simpl in *.
    + destruct IH as (Hc & Hp & Hca & -> & -> & -> & -> & -> & ->).
      split_and!; try done.
      * intros i [->|Hi]%elem_of_cons; [done|]. specialize (Hc i Hi). set_solver.
      * rewrite Hp. apply map_eq. intros t.
        destruct (decide (txid = t)) as [->|Hne];
          [rewrite !lookup_alter_eq|by rewrite !lookup_alter_ne].
        destruct (pending f !! t) as [[]|]; simpl; [|done].
        unfold append_pending. simpl. by rewrite <- !app_assoc.
      * rewrite Hca. set_solver.
    + destruct IH as (i & Hi & Hc). exists i. set_solver.
    + done.
Qed.

(** The loop of [free], when its bound is below the largest [uint64]. *)
Lemma free_loop_run (fuel : nat) (txid a : Txid) (i hi : Pgid) (f : freelist) :
  hi < max_uint64 → (N.to_nat (hi + 1 - i) < fuel)%nat →
  free_loop fuel txid a i hi f
  = for_each (pgid_seq i (N.to_nat (hi + 1 - i))) (free_body txid a) f.
Proof.
  unfold max_uint64. intros Hhi.
  remember (N.to_nat (hi + 1 - i)) as n eqn:Hn.
  revert i fuel f Hn. induction n as [|n IH]; intros i fuel f Hn Hf.
  - destruct fuel as [|fuel]; [lia|]. simpl.
    destruct (N.leb_spec i hi); [lia|done].
  - destruct fuel as [|fuel]; [lia|]. simpl.
    destruct (N.leb_spec i hi); [|lia].
    rewrite wrap64_small by lia.
    unfold bind. destruct (free_body txid a i f) as [[u g]| |]; simpl; try done.
    apply IH; lia.
Qed.

(** The loop of [free], when its bound is the largest [uint64], does not
    return. *)
Lemma free_loop_top (fuel : nat) (txid a : Txid) (i : Pgid) (f : freelist) r :
  i < 2 ^ 64 → free_loop fuel txid a i max_uint64 f ≠ Ok r.
Proof.
  revert i f. induction fuel as [|fuel IH]; intros i f Hi; simpl; [done|].
  destruct (N.leb_spec i max_uint64) as [_|Hgt]; [|unfold max_uint64 in *; lia].
  unfold bind. destruct (free_body txid a i f) as [[u g]| |]; simpl; try done.
  apply IH, wrap64_bound.
Qed.

(** The loop of [free], whenever it returns. *)
Lemma free_loop_ok (txid a : Txid) (p : Page) (f : freelist) r :
  free_loop (N.to_nat (overflow p) + 2) txid a (id p)
    (wrap64 (id p + overflow p)) f = Ok r →
  for_each (free_range p) (free_body txid a) f = Ok r.
Proof.
  intros Hr. unfold free_range.
  pose proof (wrap64_bound (id p + overflow p)) as Hb.
  destruct (decide (wrap64 (id p + overflow p) = max_uint64)) as [Htop|Hlow].
  - rewrite Htop in *.
    destruct (decide (id p < 2 ^ 64)) as [Hid|Hid].
    + by apply free_loop_top in Hr.
    + replace (N.to_nat (max_uint64 + 1 - id p)) with 0%nat
        by (unfold max_uint64; lia).
      destruct (N.to_nat (overflow p) + 2)%nat eqn:E; [lia|]. simpl in *.
      destruct (N.leb_spec (id p) max_uint64);
        [unfold max_uint64 in *; lia|done].
  - rewrite <- Hr. symmetry. apply free_loop_run.
    + unfold max_uint64 in *. lia.
    + unfold wrap64 in *.
      pose proof (N.Div0.mod_le (id p + overflow p) (2 ^ 64)). lia.
Qed.

Lemma free_unfold (txid : Txid) (p : Page) (f : freelist) :
  1 < id p →
  free txid p f =
    if assertions && bool_decide (default 0 (allocs f !! id p) = txid)
    then Panic "free: freed page was allocated by the same transaction"
    else free_loop (N.to_nat (overflow p) + 2) txid
           (default 0 (allocs f !! id p)) (id p) (wrap64 (id p + overflow p))
           (free_prepared txid p f).
Proof.
  intros Hid. unfold free, free_prepared, Verify.
  destruct (N.leb_spec (id p) 1) as [|_]; [lia|].
  munfold.
  destruct (pending f !! txid) as [txp|] eqn:Hp; simpl;
    destruct assertions; simpl;
    destruct (decide (default 0 (allocs f !! id p) = txid)) as [Ha|Ha];
    rewrite ?(bool_decide_eq_true_2 _ Ha), ?(bool_decide_eq_false_2 _ Ha);
    simpl; try done;
    destruct (allocs f !! id p) as [t|] eqn:Hal; simpl; try done;
    rewrite delete_id by done; by destruct f.
Qed.

(** C3. A call [free(tx, page)] that returns has removed [page.id] from
    [allocs], and has appended to [pending[tx]], for every id from
    [page.id] to [page.id + page.overflow], the entry of that id with one
    and the same allocator [a]: the value [allocs] had for [page.id], or 0
    if it had none; these ids have entered the cache, and the other buckets
    are untouched. *)
Theorem free_records (txid : Txid) (p : Page) (f f' : freelist) (u : unit) :
  free txid p f = Ok (u, f') →
  let a := default 0 (allocs f !! id p) in
  allocs f' = delete (id p) (allocs f) ∧
  pending f' !! txid
    = Some (append_pending (free_range p) a
              (default (mkTxPending [] []) (pending f !! txid))) ∧
  (∀ t, t ≠ txid → pending f' !! t = pending f !! t) ∧
  cache f' = cache f ∪ list_to_set (free_range p) ∧
  (∀ i, i ∈ free_range p ↔ id p ≤ i ≤ wrap64 (id p + overflow p)) ∧
  (id p + overflow p < 2 ^ 64 →
   wrap64 (id p + overflow p) = id p + overflow p).
Proof.
  intros Hfree a.
  assert (Hid : 1 < id p).
  { unfold free in Hfree. destruct (N.leb_spec (id p) 1); [done|lia]. }
  rewrite free_unfold in Hfree by done. fold a in Hfree.
  destruct (assertions && bool_decide (a = txid)); [done|].
  apply free_loop_ok in Hfree.
  pose proof (for_each_free_body txid a (free_range p)
                (free_prepared txid p f) (NoDup_pgid_seq _ _)) as Hl.
  rewrite Hfree in Hl. simpl in Hl.
  destruct Hl as (_ & Hp & Hc & Ha & _).
  split_and!.
  - by rewrite Ha.
  - rewrite Hp, lookup_alter_eq.
    destruct (pending f !! txid) as [txp|] eqn:E; simpl.
    + by rewrite E.
    + by rewrite lookup_insert_eq.
  - intros t Hne. rewrite Hp, lookup_alter_ne by done. simpl.
    destruct (pending f !! txid); [done|]. by rewrite lookup_insert_ne.
  - by rewrite Hc.
  - apply elem_of_free_range.
  - apply wrap64_small.
Qed.

(** C4, as the code has it. For a page whose last id [id + overflow] is
    below the largest [uint64], [free(tx, page)] fails fatally exactly when
    [page.id ≤ 1], or the assertions are enabled and the allocator recorded
    for [page.id] (0 when there is none) is [tx], or some id of
    [page.id .. page.id + page.overflow] is in the cache; in every other
    case it returns. *)
Theorem free_fails_iff (txid : Txid) (p : Page) (f : freelist) :
  id p + overflow p < max_uint64 →
  (is_panic (free txid p f) ↔
     id p ≤ 1 ∨
     (assertions = true ∧ default 0 (allocs f !! id p) = txid) ∨
     ∃ i, id p ≤ i ≤ id p + overflow p ∧ i ∈ cache f) ∧
  (¬ is_panic (free txid p f) → is_ok (free txid p f)).
Proof.
  intros Hmax. unfold max_uint64 in Hmax.
  destruct (N.leb_spec (id p) 1) as [Hle|Hgt].
  { unfold free. destruct (N.leb_spec (id p) 1); [|lia]. simpl.
    split; [|tauto]. split; [by left|done]. }
  rewrite free_unfold by done.
  destruct assertions; simpl;
    (destruct (decide (default 0 (allocs f !! id p) = txid)) as [Ha|Ha];
     rewrite ?(bool_decide_eq_true_2 _ Ha), ?(bool_decide_eq_false_2 _ Ha);
     simpl; [try (split; [split; [by right; left|done]|tauto])|]).
  all: rewrite free_loop_run
    by (unfold max_uint64; rewrite ?wrap64_small by lia; lia).
  all: rewrite wrap64_small by lia.
  all: pose proof (for_each_free_body txid (default 0 (allocs f !! id p))
         (pgid_seq (id p) (N.to_nat (id p + overflow p + 1 - id p)))
         (free_prepared txid p f) (NoDup_pgid_seq _ _)) as Hl.
  all: destruct (for_each _ _ _) as [[u f']| |]; simpl in *; try done.
  all: try (destruct Hl as (Hc & _); split; [|done]; split; [done|];
            intros [?|[[? ?]|(i & Hi & Hin)]]; try lia; try done;
            apply (Hc i); [apply elem_of_pgid_seq; lia|done]).
  all: destruct Hl as (i & Hi & Hin); apply elem_of_pgid_seq in Hi;
       (split; [|tauto]); (split; [|done]); intros _; right; right;
       exists i; split; [lia|done].
Qed.

(** ** [rollback] *)

Lemma rollback_loop_cons (txid : Txid) (atx : list Txid) (i : nat)
    (pg : Pgid) (l : list Pgid) (f : freelist) :
  rollback_loop txid atx i (pg :: l) f =
    match atx !! i with
    | None => Panic "index out of range"
    | Some tx =>
        if decide (tx = 0)
        then rollback_loop txid atx (S i) l (set_cache (cache f ∖ {[pg]}) f)
        else if decide (tx ≠ txid)
        then rollback_loop txid atx (S i) l
               (set_allocs (<[pg := tx]> (allocs f))
                  (set_cache (cache f ∖ {[pg]}) f))
        else Panic "rollback: freed page was allocated by the same transaction"
    end.
Proof.
  simpl. unfold bind, modify, panic, rbind. simpl.
  destruct (atx !! i); [|done]. by repeat case_decide.
Qed.

Lemma rollback_loop_spec (txid : Txid) (atx : list Txid)
    (ents : list (Pgid * Txid)) (i : nat) (f : freelist) :
  (∀ j a, ents.*2 !! j = Some a → atx !! (i + j)%nat = Some a) →
  match rollback_loop txid atx i (ents.*1) f with
  | Ok (_, f') =>
      (txid = 0 ∨ txid ∉ ents.*2) ∧
      allocs f' = restore_allocs ents (allocs f) ∧
      cache f' = cache f ∖ list_to_set (ents.*1) ∧
      pending f' = pending f ∧ free_ids f' = free_ids f ∧
      freemaps f' = freemaps f ∧ forwardMap f' = forwardMap f ∧
      backwardMap f' = backwardMap f ∧ freePagesCount f' = freePagesCount f
  | Panic _ => txid ≠ 0 ∧ txid ∈ ents.*2
  | Undefined => False
  end.
Proof.
  revert i f. induction ents as [|[pg a] ents IH]; intros i f Hatx.
  - simpl. unfold ret. split_and!; try done; set_solver.
  - rewrite !fmap_cons. simpl fst. simpl snd. rewrite rollback_loop_cons.
    assert (Hi0 : atx !! i = Some a)
      by (rewrite <- (Nat.add_0_r i); by apply Hatx).
    rewrite Hi0.
    assert (Hatx' : ∀ j b, ents.*2 !! j = Some b →
                           atx !! (S i + j)%nat = Some b).
    { intros j b Hj. replace (S i + j)%nat with (i + S j)%nat by lia.
      by apply Hatx. }
    destruct (decide (a = 0)) as [->|Ha0].
    + specialize (IH (S i) (set_cache (cache f ∖ {[pg]}) f) Hatx').
      destruct (rollback_loop _ _ _ _ _) as [[u f']| |]; [| |done].
      * destruct IH as (Ht & Hal & Hc & -> & -> & -> & -> & -> & ->).
        simpl in *. split_and!; try done.
        -- destruct (decide (txid = 0)); [by left|right].
           destruct Ht as [?|Ht]; [done|]. by apply not_elem_of_cons.
        -- rewrite Hc. set_solver.
      * destruct IH as [? ?]. split; [done|]. apply elem_of_cons. by right.
    + destruct (decide (a ≠ txid)) as [Hne|Heq].
      * specialize (IH (S i) (set_allocs (<[pg := a]> (allocs f))
                               (set_cache (cache f ∖ {[pg]}) f)) Hatx').
        destruct (rollback_loop _ _ _ _ _) as [[u f']| |]; [| |done].
        -- destruct IH as (Ht & Hal & Hc & -> & -> & -> & -> & -> & ->).
           simpl in *. split_and!; try done.
           ++ destruct Ht as [->|Ht]; [by left|right].
              by apply not_elem_of_cons.
           ++ rewrite Hal. unfold restore_allocs. simpl.
              by rewrite decide_False.
           ++ rewrite Hc. set_solver.
        -- destruct IH as [? ?]. split; [done|]. apply elem_of_cons. by right.
      * apply dec_stable in Heq as ->. split; [done|].
        apply elem_of_cons. by left.
Qed.

Lemma restore_allocs_notin (ents : list (Pgid * Txid)) (m : gmap N N) (pg : N) :
  pg ∉ ents.*1 → restore_allocs ents m !! pg = m !! pg.
Proof.
  revert m. induction ents as [|[q a] ents IH]; intros m Hn; simpl; [done|].
  apply not_elem_of_cons in Hn as [Hq Hn]. simpl in *.
  unfold restore_allocs in *. rewrite IH by done.
  case_decide; [done|]. by rewrite lookup_insert_ne.
Qed.

Lemma restore_allocs_lookup (ents : list (Pgid * Txid)) (m : gmap N N)
    (pg a : N) :
  NoDup ents.*1 → (pg, a) ∈ ents →
  restore_allocs ents m !! pg = if decide (a = 0) then m !! pg else Some a.
Proof.
  revert m. induction ents as [|[q b] ents IH]; intros m Hnd Hin; simpl.
  - by apply elem_of_nil in Hin.
  - simpl in Hnd. apply NoDup_cons in Hnd as [Hq Hnd].
    apply elem_of_cons in Hin as [[= <- <-]|Hin].
    + fold (restore_allocs ents
              (if decide (a = 0) then m else <[pg := a]> m)).
      rewrite restore_allocs_notin by done.
      case_decide; [done|]. by rewrite lookup_insert_eq.
    + unfold restore_allocs in *. rewrite IH by done.
      assert (pg ≠ q).
      { intros ->. apply Hq. apply list_elem_of_fmap. by exists (q, a). }
      repeat case_decide; try done; by rewrite lookup_insert_ne.
Qed.

(** C5, as the code has it. [rollback(t)] leaves the manager as it is when
    [t] has no bucket. When it has one (its two slices of one length), the
    call fails fatally if [t] is not 0 and some entry has the allocator
    [t]; otherwise it returns, each pending id of [t] is out of the cache,
    [allocs] has again every entry whose allocator is not 0, the bucket of
    [t] is deleted, and nothing else changes. An empty bucket is deleted as
    any other. *)
Theorem rollback_spec (txid : Txid) (f : freelist) :
  match pending f !! txid with
  | None => rollback txid f = Ok (tt, f)
  | Some txp =>
      length (ids txp) = length (alloctx txp) →
      if decide (txid ≠ 0 ∧ txid ∈ alloctx txp)
      then is_panic (rollback txid f)
      else
        ∃ f', rollback txid f = Ok (tt, f') ∧
          cache f' = cache f ∖ list_to_set (ids txp) ∧
          allocs f' = restore_allocs (entries txp) (allocs f) ∧
          (∀ pg, pg ∉ ids txp → allocs f' !! pg = allocs f !! pg) ∧
          (NoDup (ids txp) → ∀ pg a, (pg, a) ∈ entries txp →
             allocs f' !! pg = if decide (a = 0) then allocs f !! pg else Some a) ∧
          pending f' = delete txid (pending f) ∧
          free_ids f' = free_ids f ∧ freemaps f' = freemaps f ∧
          forwardMap f' = forwardMap f ∧ backwardMap f' = backwardMap f ∧
          freePagesCount f' = freePagesCount f ∧
          (ids txp = [] → f' = set_pending (delete txid (pending f)) f)
  end.
Proof.
  unfold rollback. munfold.
  destruct (pending f !! txid) as [txp|] eqn:Hp; simpl; [|done].
  intros Hlen.
  assert (H1 : (entries txp).*1 = ids txp)
    by (unfold entries; apply fst_zip; lia).
  assert (H2 : (entries txp).*2 = alloctx txp)
    by (unfold entries; apply snd_zip; lia).
  pose proof (rollback_loop_spec txid (alloctx txp) (entries txp) 0 f) as Hl.
  rewrite H1, H2 in Hl. specialize (Hl (λ j a Hj, Hj)).
  destruct (rollback_loop txid (alloctx txp) 0 (ids txp) f)
    as [[u f']| |]; simpl in *; [| |done].
  - destruct Hl as (Ht & Ha & Hc & Hpe & Hi & Hfm & Hfw & Hbw & Hn).
    rewrite decide_False by (intros [? ?]; by destruct Ht).
    destruct u. eexists. split; [done|]. simpl.
    split_and!; try done.
    + rewrite Ha. intros pg Hpg. apply restore_allocs_notin. by rewrite H1.
    + rewrite Ha. intros Hnd pg a Hin. apply restore_allocs_lookup; [|done].
      by rewrite H1.
    + by rewrite Hpe.
    + intros Hnil. destruct f, f'; simpl in *. subst.
      unfold entries in *. rewrite Hnil in *. simpl in *.
      by replace (cache0 ∖ ∅) with cache0 by set_solver.
  - by rewrite decide_True.
Qed.

(** ** Sorting *)

Lemma sort_pgids_perm (l : list Pgid) : sort_pgids l ≡ₚ l.
Proof. apply merge_sort_Permutation. Qed.

Lemma sort_pgids_sorted (l : list Pgid) : StronglySorted N.le (sort_pgids l).
Proof. apply StronglySorted_merge_sort; apply _. Qed.

Lemma elem_of_sort_pgids (x : N) (l : list Pgid) : x ∈ sort_pgids l ↔ x ∈ l.
Proof. by rewrite sort_pgids_perm. Qed.

Lemma sort_pgids_unique (l l' : list Pgid) :
  l ≡ₚ l' → sort_pgids l = sort_pgids l'.
Proof.
  intros Hp. apply (StronglySorted_unique N.le); try apply sort_pgids_sorted.
  by rewrite !sort_pgids_perm.
Qed.

Lemma sort_pgids_id (l : list Pgid) :
  StronglySorted N.le l → sort_pgids l = l.
Proof.
  intros Hs. apply (StronglySorted_unique N.le);
    [apply sort_pgids_sorted|done|apply sort_pgids_perm].
Qed.

(** The head of a sorted list is its least element. *)
Lemma sort_pgids_head (l : list Pgid) (x : N) :
  head (sort_pgids l) = Some x ↔ x ∈ l ∧ ∀ y, y ∈ l → x ≤ y.
Proof.
  pose proof (sort_pgids_sorted l) as Hs.
  pose proof (elem_of_sort_pgids) as He.
  destruct (sort_pgids l) as [|z tl] eqn:E; simpl.
  - split; [done|]. intros [Hx _]. apply He in Hx. rewrite E in Hx.
    by apply elem_of_nil in Hx.
  - apply StronglySorted_inv in Hs as [_ Hz]. rewrite Forall_forall in Hz.
    assert (Hmin : ∀ y, y ∈ l → z ≤ y).
    { intros y Hy. apply He in Hy. rewrite E in Hy.
      apply elem_of_cons in Hy as [->|Hy]; [lia|by apply Hz]. }
    assert (Hin : z ∈ l) by (apply He; rewrite E; left).
    split.
    + by intros [= <-].
    + intros [Hx Hle]. f_equal. specialize (Hmin x Hx). specialize (Hle z Hin).
      lia.
Qed.

Lemma sort_pgids_head_None (l : list Pgid) :
  head (sort_pgids l) = None ↔ l = [].
Proof.
  split.
  - intros Hh. destruct (sort_pgids l) eqn:E; [|done].
    symmetry. apply Permutation_nil_l. rewrite <- E. apply sort_pgids_perm.
  - by intros ->.
Qed.

(** ** [allocate] *)

Lemma elem_of_candidate_sizes (n m : N) (f : freelist) :
  m ∈ candidate_sizes n f ↔ n ≤ m ∧ has_span f m.
Proof.
  unfold candidate_sizes, has_span.
  rewrite elem_of_sort_pgids, list_elem_of_filter, elem_of_elements, elem_of_dom.
  split; [tauto|]. intros [Hn Hs]. split; [done|].
  rewrite lookup_total_alt in Hs.
  destruct (freemaps f !! m); [done|]. by simpl in Hs.
Qed.

Lemma candidate_sizes_head (n m : N) (f : freelist) :
  head (candidate_sizes n f) = Some m ↔
  (n ≤ m ∧ has_span f m) ∧ ∀ m', n ≤ m' → has_span f m' → m ≤ m'.
Proof.
  unfold candidate_sizes at 1. rewrite sort_pgids_head.
  pose proof (elem_of_candidate_sizes n) as He. unfold candidate_sizes in He.
  setoid_rewrite elem_of_sort_pgids in He.
  rewrite He. split; intros [Hm Hmin]; (split; [done|]).
  - intros m' ? ?. apply Hmin, He. done.
  - intros y Hy. apply He in Hy as [? ?]. by apply Hmin.
Qed.

(** C9. [allocate(tx, n)], the allocation algorithm of the spec. When some
    size [≥ n] has a span, let [m] be the smallest such size and [start] the
    smallest start in its bucket: the call returns [start], the span
    [(start, m)] leaves the index, the remainder [(start + n, m - n)] enters
    it when [m > n], and [allocs[start] = tx]. When no size [≥ n] has a
    span, the call returns 0 and changes nothing. *)
Theorem allocate_spec (txid : Txid) (n : N) (f : freelist) :
  ((∀ m, n ≤ m → ¬ has_span f m) → hashmapAllocate txid n f = Ok (0, f)) ∧
  (∀ m start,
     n ≤ m → has_span f m →
     (∀ m', n ≤ m' → has_span f m' → m ≤ m') →
     start ∈ (freemaps f !!! m : gset N) →
     (∀ s, s ∈ (freemaps f !!! m : gset N) → start ≤ s) →
     let f' := allocated txid start n m f in
     hashmapAllocate txid n f = Ok (start, f') ∧
     allocs f' !! start = Some txid ∧
     (0 < n → (start ∉ (freemaps f' !!! m : gset N)) ∧
              forwardMap f' !! start = None) ∧
     (n < m → forwardMap f' !! (start + n) = Some (m - n) ∧
              backwardMap f' !! (start + m - 1) = Some (m - n) ∧
              start + n ∈ (freemaps f' !!! (m - n) : gset N)) ∧
     (n = m → forwardMap f' = delete start (forwardMap f))).
Proof.
  split.
  - intros Hnone. unfold hashmapAllocate, bind, gets, ret. simpl.
    destruct (candidate_sizes n f) as [|m tl] eqn:E; [done|].
    assert (Hm : m ∈ candidate_sizes n f) by (rewrite E; left).
    apply elem_of_candidate_sizes in Hm as [? ?]. by destruct (Hnone m).
  - intros m start Hnm Hhas Hmin Hstart Hsmin f'.
    assert (Hh : head (candidate_sizes n f) = Some m)
      by (by apply candidate_sizes_head).
    assert (Hb : min_pgid (freemaps f !!! m) = Some start).
    { unfold min_pgid. apply sort_pgids_head.
      setoid_rewrite elem_of_elements. done. }
    split_and!.
    + unfold hashmapAllocate, bind, gets, modify, ret. simpl.
      destruct (candidate_sizes n f) as [|m0 tl]; [done|].
      simpl in Hh. injection Hh as ->. rewrite Hb. simpl.
      subst f'. unfold allocated. by destruct (n <? m).
    + subst f'. unfold allocated. simpl. apply lookup_insert_eq.
    + intros Hn. subst f'. unfold allocated, delSpan, addSpan. simpl.
      destruct (N.ltb_spec n m); simpl; split.
      * rewrite lookup_total_insert_ne by lia.
        case_decide as Hd.
        -- rewrite lookup_total_delete_eq. set_solver.
        -- rewrite lookup_total_insert_eq. set_solver.
      * rewrite lookup_insert_ne by lia. apply lookup_delete_eq.
      * case_decide as Hd.
        -- rewrite lookup_total_delete_eq. set_solver.
        -- rewrite lookup_total_insert_eq. set_solver.
      * apply lookup_delete_eq.
    + intros Hlt. subst f'. unfold allocated, delSpan, addSpan. simpl.
      destruct (N.ltb_spec n m); [|lia]. simpl.
      split_and!.
      * apply lookup_insert_eq.
      * replace (start + n + (m - n) - 1) with (start + m - 1) by lia.
        apply lookup_insert_eq.
      * rewrite lookup_total_insert_eq. set_solver.
    + intros ->. subst f'. unfold allocated, delSpan. simpl.
      destruct (N.ltb_spec m m); [lia|done].
Qed.

(** ** The span index *)

Lemma elem_of_free_page_ids (f : freelist) (x : N) :
  x ∈ free_page_ids f ↔ covers (forwardMap f) x.
Proof.
  unfold free_page_ids, covers. rewrite elem_of_sort_pgids, list_elem_of_bind.
  split.
  - intros ([st n] & Hx & Hin). apply elem_of_map_to_list in Hin.
    unfold span_ids in Hx. simpl in Hx. apply elem_of_pgid_seq in Hx.
    exists st, n. split; [done|lia].
  - intros (st & n & Hl & Hx). exists (st, n). split.
    + unfold span_ids. simpl. apply elem_of_pgid_seq. lia.
    + by apply elem_of_map_to_list.
Qed.

(** The spans of a list of ids that ascends: they cover the ids, each ends
    no later than the following ones start, and none is empty. *)
Lemma runs_from_spec (start size : N) (l : list Pgid) :
  1 ≤ size → StronglySorted N.le l →
  Forall (λ x, start + size - 1 ≤ x) l →
  (∀ x, in_spans (runs_from start size l) x ↔
        start ≤ x < start + size ∨ x ∈ l) ∧
  StronglySorted (λ a b : N * N, a.1 + a.2 - 1 ≤ b.1) (runs_from start size l) ∧
  Forall (λ sp : N * N, 1 ≤ sp.2 ∧ start ≤ sp.1) (runs_from start size l).
Proof.
  revert start size. induction l as [|y l IH]; intros start size Hsz Hs Hge.
  - simpl. split_and!.
    + intros x. unfold in_spans. setoid_rewrite list_elem_of_singleton.
      split.
      * intros (sp & -> & Hx). by left.
      * intros [Hx|Hx]; [by exists (start, size)|by apply elem_of_nil in Hx].
    + repeat constructor.
    + repeat constructor; simpl; lia.
  - simpl. apply StronglySorted_inv in Hs as [Hs Hy].
    apply Forall_cons in Hge as [Hy0 Hge].
    destruct (decide (y = start + size)) as [->|Hne].
    + destruct (IH start (size + 1)) as (Hc & Ho & Hf); [lia|done| |].
      { eapply Forall_impl; [exact Hy|]. simpl. intros. lia. }
      split_and!; [|done|done].
      intros x. rewrite Hc, elem_of_cons. naive_solver lia.
    + destruct (IH y 1) as (Hc & Ho & Hf); [lia|done| |].
      { eapply Forall_impl; [exact Hy|]. simpl. intros. lia. }
      split_and!.
      * intros x. unfold in_spans in *. setoid_rewrite elem_of_cons.
        split.
        -- intros (sp & [->|Hin] & Hx); [by left|].
           destruct (proj1 (Hc x)) as [?|?]; [by exists sp| |];
             right; [left; lia|by right].
        -- intros [Hx|[->|Hx]].
           ++ exists (start, size). split; [by left|done].
           ++ destruct (proj2 (Hc y)) as (sp & ? & ?); [left; lia|].
              exists sp. split; [by right|done].
           ++ destruct (proj2 (Hc x)) as (sp & ? & ?); [by right|].
              exists sp. split; [by right|done].
      * constructor; [done|].
        eapply Forall_impl; [exact Hf|]. simpl. intros sp [_ ?]. lia.
      * constructor; [simpl; lia|].
        eapply Forall_impl; [exact Hf|]. simpl. intros sp [? ?]. lia.
Qed.

Lemma spans_of_ids_spec (l : list Pgid) :
  StronglySorted N.le l →
  (∀ x, in_spans (spans_of_ids l) x ↔ x ∈ l) ∧
  StronglySorted (λ a b : N * N, a.1 + a.2 - 1 ≤ b.1) (spans_of_ids l) ∧
  Forall (λ sp : N * N, 1 ≤ sp.2) (spans_of_ids l).
Proof.
  intros Hs. destruct l as [|y l]; simpl.
  - split_and!; try constructor.
    + intros (sp & Hin & _). by apply elem_of_nil in Hin.
    + intros Hx. by apply elem_of_nil in Hx.
  - apply StronglySorted_inv in Hs as [Hs Hy].
    destruct (runs_from_spec y 1 l) as (Hc & Ho & Hf); [lia|done| |].
    { eapply Forall_impl; [exact Hy|]. simpl. intros. lia. }
    split_and!; [|done|].
    + intros x. rewrite Hc, elem_of_cons. naive_solver lia.
    + eapply Forall_impl; [exact Hf|]. simpl. tauto.
Qed.

(** Inserting spans in a map of starts: a span that ends no later than the
    next ones start is only ever replaced by one that contains it. *)
Lemma covers_foldl_insert (spans : list (N * N)) (fw : gmap N N) :
  StronglySorted (λ a b : N * N, a.1 + a.2 - 1 ≤ b.1) spans →
  Forall (λ sp : N * N, 1 ≤ sp.2) spans →
  (∀ st n, fw !! st = Some n →
     1 ≤ n ∧ Forall (λ sp : N * N, st + n - 1 ≤ sp.1) spans) →
  ∀ x, covers (foldl (λ m sp, <[sp.1 := sp.2]> m) fw spans) x ↔
       covers fw x ∨ in_spans spans x.
Proof.
  revert fw. induction spans as [|[s0 n0] spans IH]; intros fw Ho Hsz Hfw x.
  - simpl. split; [by left|]. intros [?|(sp & Hin & _)]; [done|].
    by apply elem_of_nil in Hin.
  - simpl. apply StronglySorted_inv in Ho as [Ho Hs0].
    apply Forall_cons in Hsz as [Hn0 Hsz]. simpl in Hn0.
    rewrite IH; [|done|done|].
    + unfold covers, in_spans. setoid_rewrite elem_of_cons. split.
      * intros [(st & n & Hl & Hx)|(sp & Hin & Hx)].
        -- destruct (decide (s0 = st)) as [->|Hne].
           ++ rewrite lookup_insert_eq in Hl. injection Hl as <-.
              right. exists (st, n0). split; [by left|done].
           ++ rewrite lookup_insert_ne in Hl by done. left. by exists st, n.
        -- right. exists sp. split; [by right|done].
      * intros [(st & n & Hl & Hx)|(sp & [->|Hin] & Hx)].
        -- destruct (decide (s0 = st)) as [->|Hne].
           ++ destruct (Hfw st n Hl) as [H1 Hall].
              apply Forall_cons in Hall as [Hle _]. simpl in Hle.
              left. exists st, n0. rewrite lookup_insert_eq. split; [done|lia].
           ++ left. exists st, n. by rewrite lookup_insert_ne.
        -- left. exists s0, n0. by rewrite lookup_insert_eq.
        -- right. by exists sp.
    + intros st n Hl. destruct (decide (s0 = st)) as [->|Hne].
      * rewrite lookup_insert_eq in Hl. injection Hl as <-. done.
      * rewrite lookup_insert_ne in Hl by done.
        destruct (Hfw st n Hl) as [H1 Hall].
        apply Forall_cons in Hall as [_ Hall]. done.
Qed.

Lemma foldl_addSpan_fields (spans : list (N * N)) (g : freelist) :
  let g' := foldl (λ g sp, addSpan sp.1 sp.2 g) g spans in
  forwardMap g' = foldl (λ m sp, <[sp.1 := sp.2]> m) (forwardMap g) spans ∧
  pending g' = pending g ∧ cache g' = cache g ∧ allocs g' = allocs g ∧
  free_ids g' = free_ids g.
Proof.
  revert g. induction spans as [|sp spans IH]; intros g; simpl; [done|].
  destruct (IH (addSpan sp.1 sp.2 g)) as (-> & -> & -> & -> & ->). done.
Qed.

(** The ids of the spans installed from an ascending list are the ids of
    the list. *)
Lemma install_spans_covers (l : list Pgid) (f : freelist) (x : N) :
  StronglySorted N.le l →
  covers (forwardMap (install_spans l f)) x ↔ x ∈ l.
Proof.
  intros Hs. unfold install_spans.
  destruct (foldl_addSpan_fields (spans_of_ids l) (set_spans ∅ ∅ ∅ 0 f))
    as (-> & _).
  destruct (spans_of_ids_spec l Hs) as (Hc & Ho & Hf).
  rewrite covers_foldl_insert; [|done|done|].
  - rewrite Hc. split; [|by right]. intros [(st & n & Hl & _)|?]; [|done].
    simpl in Hl. by rewrite lookup_empty in Hl.
  - intros st n Hl. simpl in Hl. by rewrite lookup_empty in Hl.
Qed.

(** ** [read] *)

Lemma install_spans_fields (l : list Pgid) (f : freelist) :
  pending (install_spans l f) = pending f ∧
  cache (install_spans l f) = cache f ∧
  allocs (install_spans l f) = allocs f ∧
  free_ids (install_spans l f) = free_ids f.
Proof.
  unfold install_spans.
  destruct (foldl_addSpan_fields (spans_of_ids l) (set_spans ∅ ∅ ∅ 0 f))
    as (_ & -> & -> & -> & ->). done.
Qed.

Lemma hashmapReadIDs_run (l : list Pgid) (f : freelist) :
  hashmapReadIDs l f = Ok (tt, ids_installed l f).
Proof.
  unfold hashmapReadIDs, reindex, hashmapGetFreePageIDs, ids_installed.
  munfold. unfold pending_ids. simpl.
  destruct (install_spans_fields l f) as (-> & _). done.
Qed.

Lemma read_unfold (p : Page) (f : freelist) :
  read p f =
    if IsFreelistPage p then
      match FreelistPageIds p with
      | Ok l => if decide (length l = 0%nat) then Ok (tt, set_free_ids [] f)
                else Ok (tt, ids_installed (sort_pgids l) f)
      | Panic msg => Panic msg
      | Undefined => Undefined
      end
    else Panic "invalid freelist page".
Proof.
  unfold read. destruct (IsFreelistPage p); simpl; [|done].
  unfold bind, lift. destruct (FreelistPageIds p) as [l| |]; simpl; try done.
  destruct (decide (length l = 0%nat)); [done|]. apply hashmapReadIDs_run.
Qed.

Lemma ids_installed_free (l : list Pgid) (f : freelist) (x : N) :
  x ∈ free_page_ids (ids_installed (sort_pgids l) f) ↔ x ∈ l.
Proof.
  rewrite elem_of_free_page_ids. unfold ids_installed. simpl.
  rewrite install_spans_covers by apply sort_pgids_sorted.
  apply elem_of_sort_pgids.
Qed.

Lemma ids_installed_cache (l : list Pgid) (f : freelist) (x : N) :
  x ∈ cache (ids_installed (sort_pgids l) f) ↔ x ∈ l ∨ x ∈ pending_ids f.
Proof.
  unfold ids_installed. simpl.
  rewrite elem_of_union, !elem_of_list_to_set, elem_of_free_page_ids.
  rewrite install_spans_covers by apply sort_pgids_sorted.
  by rewrite elem_of_sort_pgids.
Qed.

(** The spans of a list of ids that ascends strictly are apart. *)
Lemma runs_from_apart (start size : N) (l : list Pgid) :
  StronglySorted N.lt l → Forall (λ x, start + size - 1 < x) l →
  StronglySorted (λ a b : N * N, a.1 + a.2 < b.1) (runs_from start size l) ∧
  Forall (λ sp : N * N, start ≤ sp.1) (runs_from start size l).
Proof.
  revert start size. induction l as [|y l IH]; intros start size Hs Hge.
  - simpl. split; repeat constructor. simpl. lia.
  - simpl. apply StronglySorted_inv in Hs as [Hs Hy].
    apply Forall_cons in Hge as [Hy0 Hge].
    destruct (decide (y = start + size)) as [->|Hne].
    + apply IH; [done|].
      eapply Forall_impl; [exact Hy|]. simpl. intros. lia.
    + destruct (IH y 1) as (Ho & Hf); [done| |].
      { eapply Forall_impl; [exact Hy|]. simpl. intros. lia. }
      split.
      * constructor; [done|].
        eapply Forall_impl; [exact Hf|]. simpl. intros. lia.
      * constructor; [simpl; lia|].
        eapply Forall_impl; [exact Hf|]. simpl. intros. lia.
Qed.

Lemma spans_of_ids_apart (l : list Pgid) :
  StronglySorted N.lt l →
  StronglySorted (λ a b : N * N, a.1 + a.2 < b.1) (spans_of_ids l).
Proof.
  intros Hs. destruct l as [|y l]; simpl; [constructor|].
  apply StronglySorted_inv in Hs as [Hs Hy].
  apply runs_from_apart; [done|].
  eapply Forall_impl; [exact Hy|]. simpl. intros. lia.
Qed.

Lemma lookup_foldl_insert (spans : list (N * N)) (fw : gmap N N) (st n : N) :
  StronglySorted (λ a b : N * N, a.1 + a.2 < b.1) spans →
  foldl (λ m sp, <[sp.1 := sp.2]> m) fw spans !! st = Some n ↔
  (st, n) ∈ spans ∨ ((st ∉ spans.*1) ∧ fw !! st = Some n).
Proof.
  revert fw. induction spans as [|[s0 n0] spans IH]; intros fw Ho; simpl.
  - rewrite elem_of_nil. split; [intros; right; split; [apply not_elem_of_nil|done]|].
    by intros [?|[_ ?]].
  - apply StronglySorted_inv in Ho as [Ho Hs0]. rewrite IH by done.
    rewrite elem_of_cons, not_elem_of_cons. simpl.
    assert (Hfresh : s0 ∉ spans.*1).
    { intros ([s1 n1] & Heq & Hin)%list_elem_of_fmap. simpl in Heq. subst s1.
      rewrite Forall_forall in Hs0. specialize (Hs0 _ Hin). simpl in Hs0. lia. }
    split.
    + intros [?|[Hn Hl]]; [by left; right|].
      destruct (decide (s0 = st)) as [->|Hne].
      * rewrite lookup_insert_eq in Hl. injection Hl as <-. by left; left.
      * rewrite lookup_insert_ne in Hl by done. right. done.
    + intros [[[= -> ->]|?]|[[Hne Hn] Hl]]; [|by left|].
      * right. by rewrite lookup_insert_eq.
      * right. by rewrite lookup_insert_ne.
Qed.

Lemma StronglySorted_lt_of_NoDup (l : list Pgid) :
  NoDup l → StronglySorted N.lt (sort_pgids l).
Proof.
  intros Hnd. pose proof (sort_pgids_sorted l) as Hs.
  assert (Hnd' : NoDup (sort_pgids l)) by (by rewrite sort_pgids_perm).
  induction Hs as [|x tl Hs IH Hx]; [constructor|].
  apply NoDup_cons in Hnd' as [Hnx Hnd']. constructor; [by apply IH|].
  rewrite Forall_forall in *. intros y Hy. specialize (Hx y Hy).
  assert (x ≠ y) by (by intros ->). lia.
Qed.

(** The spans installed from a list of distinct ids are coalesced. *)
Lemma install_spans_coalesced (l : list Pgid) (f : freelist) :
  NoDup l → coalesced (forwardMap (install_spans (sort_pgids l) f)).
Proof.
  intros Hnd. unfold install_spans.
  destruct (foldl_addSpan_fields (spans_of_ids (sort_pgids l))
              (set_spans ∅ ∅ ∅ 0 f)) as (-> & _). simpl.
  pose proof (spans_of_ids_apart _ (StronglySorted_lt_of_NoDup l Hnd)) as Ho.
  destruct (spans_of_ids_spec _ (sort_pgids_sorted l)) as (_ & _ & Hsz).
  assert (Hin : ∀ st n,
    foldl (λ m sp, <[sp.1 := sp.2]> m) (∅ : gmap N N)
      (spans_of_ids (sort_pgids l)) !! st
      = Some n → (st, n) ∈ spans_of_ids (sort_pgids l)).
  { intros st n Hl. apply lookup_foldl_insert in Hl; [|done].
    destruct Hl as [?|[_ Hl]]; [done|]. by rewrite lookup_empty in Hl. }
  revert Ho Hsz Hin. generalize (spans_of_ids (sort_pgids l)). intros spans.
  generalize (foldl (λ m sp, <[sp.1 := sp.2]> m) (∅ : gmap N N) spans).
  intros fw Ho Hsz Hin st n Hl. apply Hin in Hl. split.
  - rewrite Forall_forall in Hsz. apply (Hsz _ Hl).
  - intros st' n' Hl' Hlt. apply Hin in Hl'.
    clear Hin Hsz. revert Hl Hl'.
    induction Ho as [|[s0 n0] spans Ho IH Hsp]; intros Hl Hl'.
    + by apply elem_of_nil in Hl.
    + rewrite Forall_forall in Hsp.
      apply elem_of_cons in Hl as [[= -> ->]|Hl];
        apply elem_of_cons in Hl' as [[= -> ->]|Hl'].
      * lia.
      * apply (Hsp _ Hl').
      * specialize (Hsp _ Hl). simpl in *. lia.
      * by apply IH.
Qed.

Lemma free_page_ids_no_span (f : freelist) :
  forwardMap f = ∅ → free_page_ids f = [].
Proof. intros Hf. unfold free_page_ids. by rewrite Hf, map_to_list_empty. Qed.

(** C7, as the code has it. [read(p)] fails fatally when [p] is not a
    Freelist page. When [p] is one and stores at least one id, the free ids
    of the manager are, after the call, exactly the ids decoded from [p],
    installed as coalesced spans when the ids are distinct, and the cache
    holds exactly those ids and the ids that are pending in the manager
    (so exactly the decoded ids when none is pending). When [p] stores no
    id and the manager has no span and an empty cache, it still has none
    after the call. *)
Theorem read_spec (p : Page) (f : freelist) :
  (IsFreelistPage p = false → is_panic (read p f)) ∧
  (∀ l, IsFreelistPage p = true → FreelistPageIds p = Ok l → l ≠ [] →
     ∃ f', read p f = Ok (tt, f') ∧
       (∀ x, x ∈ free_page_ids f' ↔ x ∈ l) ∧
       (NoDup l → coalesced (forwardMap f')) ∧
       (∀ x, x ∈ cache f' ↔ x ∈ l ∨ x ∈ pending_ids f) ∧
       (pending_ids f = [] → ∀ x, x ∈ cache f' ↔ x ∈ l) ∧
       pending f' = pending f ∧ allocs f' = allocs f) ∧
  (IsFreelistPage p = true → FreelistPageIds p = Ok [] →
   forwardMap f = ∅ → cache f = ∅ →
     ∃ f', read p f = Ok (tt, f') ∧ free_page_ids f' = [] ∧ cache f' = ∅).
Proof.
  rewrite read_unfold. split_and!.
  - by intros ->.
  - intros l -> -> Hl.
    destruct (decide (length l = 0%nat)) as [H0|_].
    { by apply length_zero_iff_nil in H0. }
    eexists. split; [done|]. split_and!.
    + apply ids_installed_free.
    + intros Hnd. unfold ids_installed. simpl.
      by apply install_spans_coalesced.
    + apply ids_installed_cache.
    + intros Hp x. rewrite ids_installed_cache, Hp, elem_of_nil. tauto.
    + unfold ids_installed. simpl. apply install_spans_fields.
    + unfold ids_installed. simpl. apply install_spans_fields.
  - intros -> -> Hfw Hc. simpl. eexists. split; [done|]. split.
    + by apply free_page_ids_no_span.
    + done.
Qed.

(** ** [write] then [read] *)

Lemma elem_of_all_ids (f : freelist) (x : N) :
  x ∈ all_ids f ↔ x ∈ free_page_ids f ∨ x ∈ pending_ids f.
Proof.
  unfold all_ids.
  rewrite merge_Permutation, elem_of_app, elem_of_sort_pgids. done.
Qed.

(** Decoding the page a state was written in gives back its ids. *)
Lemma FreelistPageIds_written (p : Page) (f : freelist) :
  count_exact f → page_fits f p →
  FreelistPageIds (written_page f p) = Ok (all_ids f).
Proof.
  unfold count_exact, page_fits, slots_needed. intros Hc [Hfit Hmax].
  pose proof (all_ids_length f) as Hall.
  unfold FreelistPageIds, written_page, stored_count, stored_array. simpl.
  destruct (Z.ltb_spec (count_of f) 65535) as [Hlt|Hge].
  - assert (Hu : uint16_of_int (count_of f) = Z.to_N (count_of f)).
    { unfold uint16_of_int. rewrite Z.mod_small; [done|lia]. }
    rewrite Hu. destruct (N.ltb_spec (Z.to_N (count_of f)) 65535); [|lia].
    unfold unsafe_slice. rewrite Z2N.id by lia.
    destruct (Z.ltb_spec (count_of f) 0); [lia|].
    destruct (Z.ltb_spec (len (all_ids f ++ drop (length (all_ids f)) (data p)))
                (count_of f)) as [Hbad|_].
    { unfold len in *. rewrite length_app in Hbad. lia. }
    f_equal. rewrite take_app_length'; [done|lia].
  - simpl.
    assert (Hu : Z.of_N (pgid_of_int (count_of f)) = count_of f).
    { unfold pgid_of_int. unfold len in *. rewrite Z.mod_small; lia. }
    unfold unsafe_slice. rewrite Hu.
    destruct (Z.ltb_spec (count_of f) 0); [lia|].
    match goal with |- context [Z.ltb (len ?a) ?b] =>
      destruct (Z.ltb_spec (len a) b) as [Hbad|_] end.
    { unfold len in *. rewrite length_app in Hbad. lia. }
    f_equal. rewrite take_app_length'; [done|lia].
Qed.

(** C1. The crash-recovery law. For every manager [m] whose cached counts
    are exact, pending or not, and every page that holds the array:
    [write] returns a page, [read] of that page on a fresh manager returns,
    and the manager it leaves has as free ids exactly the free ids of [m]
    and the pending ids of [m], and an empty pending table. *)
Theorem crash_recovery (m : freelist) (p : Page) :
  count_exact m → page_fits m p →
  ∃ p' f',
    write p m = Ok ((p', None), m) ∧
    read p' newFreelist = Ok (tt, f') ∧
    (∀ x, x ∈ free_page_ids f' ↔ x ∈ free_page_ids m ∨ x ∈ pending_ids m) ∧
    pending f' = ∅.
Proof.
  intros Hc Hp. exists (written_page m p).
  rewrite write_run by done.
  rewrite read_unfold, FreelistPageIds_written by done.
  unfold IsFreelistPage, written_page at 1. simpl.
  rewrite bool_decide_eq_true_2 by done.
  destruct (decide (length (all_ids m) = 0%nat)) as [H0|Hn].
  - eexists. split_and!; try done.
    apply length_zero_iff_nil in H0. intros x.
    rewrite <- elem_of_all_ids, H0. simpl. done.
  - eexists. split_and!; try done.
    + intros x. by rewrite ids_installed_free, elem_of_all_ids.
    + unfold ids_installed. simpl.
      destruct (install_spans_fields (sort_pgids (all_ids m)) newFreelist)
        as (-> & _). done.
Qed.

(** ** [merge] *)

(** The two maps once an id that is in no span is merged. *)
Lemma mergeWithExistingSpan_maps (pid : Pgid) (f : freelist) :
  spans_wf f → ¬ covers (forwardMap f) pid →
  let nl := default 0 (backwardMap f !! (pid - 1)) in
  let nr := default 0 (forwardMap f !! (pid + 1)) in
  nl ≤ pid ∧
  forwardMap f !! pid = None ∧
  (nl = 0 ∨ forwardMap f !! (pid - nl) = Some nl) ∧
  (nl = 0 → backwardMap f !! (pid - 1) = None) ∧
  (nr = 0 → forwardMap f !! (pid + 1) = None) ∧
  forwardMap (mergeWithExistingSpan pid f)
    = <[pid - nl := nl + 1 + nr]>
        (delete (pid + 1) (delete (pid - nl) (forwardMap f))) ∧
  backwardMap (mergeWithExistingSpan pid f)
    = <[pid + nr := nl + 1 + nr]> (delete (pid - 1) (backwardMap f)) ∧
  pending (mergeWithExistingSpan pid f) = pending f ∧
  allocs (mergeWithExistingSpan pid f) = allocs f ∧
  cache (mergeWithExistingSpan pid f) = {[pid]} ∪ cache f.
Proof.
  intros [Hsz Hbw] Hnc nl nr.
  assert (Hpid : forwardMap f !! pid = None).
  { destruct (forwardMap f !! pid) as [n|] eqn:E; [|done].
    destruct Hnc. exists pid, n. specialize (Hsz _ _ E). split; [done|lia]. }
  assert (Hl : match backwardMap f !! (pid - 1) with
               | Some n => 1 ≤ n ≤ pid ∧ forwardMap f !! (pid - n) = Some n
               | None => True
               end).
  { destruct (backwardMap f !! (pid - 1)) as [n|] eqn:E; [|done].
    destruct (Hbw _ _ E) as [Hn Hf].
    destruct (decide (pid = 0)) as [->|Hp0].
    - assert (n = 1) as -> by lia.
      replace (0 - 1 + 1 - 1) with 0 in Hf by done.
      rewrite Hpid in Hf. done.
    - replace (pid - 1 + 1 - n) with (pid - n) in Hf by lia.
      split; [lia|done]. }
  assert (Hr : match forwardMap f !! (pid + 1) with
               | Some n => 1 ≤ n
               | None => True
               end).
  { destruct (forwardMap f !! (pid + 1)) as [n|] eqn:E; [|done]. eauto. }
  unfold mergeWithExistingSpan, nl, nr.
  destruct (backwardMap f !! (pid - 1)) as [a|] eqn:El;
    destruct (forwardMap f !! (pid + 1)) as [b|] eqn:Er;
    simpl in *.
  all: try (destruct Hl); split_and!; try done; try lia;
    try (by right); try (by left).
  - replace (pid - a + a - 1) with (pid - 1) by lia.
    replace (pid - a + (a + 1 + b) - 1) with (pid + b) by lia.
    replace (pid + 1 + b - 1) with (pid + b) by lia.
    by rewrite insert_delete_eq.
  - by rewrite (delete_id _ (pid + 1))
      by (rewrite lookup_delete_ne by lia; done).
  - replace (pid - a + a - 1) with (pid - 1) by lia.
    by replace (pid - a + (a + 1 + 0) - 1) with (pid + 0) by lia.
  - rewrite N.sub_0_r. by rewrite (delete_id _ pid).
  - replace (pid + (0 + 1 + b) - 1) with (pid + b) by lia.
    replace (pid + 1 + b - 1) with (pid + b) by lia.
    rewrite insert_delete_eq. by rewrite (delete_id _ (pid - 1)).
  - rewrite N.sub_0_r, (delete_id _ pid) by done.
    by rewrite (delete_id _ (pid + 1)).
  - replace (pid + (0 + 1 + 0) - 1) with (pid + 0) by lia.
    by rewrite (delete_id _ (pid - 1)).
Qed.

(** Merging an id that is in no span keeps the maps in agreement and adds
    the id, and nothing else, to the ids in spans. *)
Lemma mergeWithExistingSpan_step (pid : Pgid) (f : freelist) :
  spans_wf f → ¬ covers (forwardMap f) pid →
  spans_wf (mergeWithExistingSpan pid f) ∧
  ∀ x, covers (forwardMap (mergeWithExistingSpan pid f)) x ↔
       covers (forwardMap f) x ∨ x = pid.
Proof.
  intros Hwf Hnc.
  destruct (mergeWithExistingSpan_maps pid f Hwf Hnc)
    as (Hnl & Hpid & Hleft & Hl0 & Hr0 & Hfw & Hbw & _).
  destruct Hwf as [Hsz Hcons].
  set (nl := default 0 (backwardMap f !! (pid - 1))) in *.
  set (nr := default 0 (forwardMap f !! (pid + 1))) in *.
  assert (Hright : nr = 0 ∨ forwardMap f !! (pid + 1) = Some nr).
  { unfold nr. destruct (forwardMap f !! (pid + 1)); [by right|by left]. }
  assert (Hnr1 : ∀ n, forwardMap f !! (pid + 1) = Some n → n = nr).
  { intros n Hn. unfold nr. by rewrite Hn. }
  assert (Hnl1 : ∀ n, backwardMap f !! (pid - 1) = Some n → n = nl).
  { intros n Hn. unfold nl. by rewrite Hn. }
  split; [split|].
  - intros st n. rewrite Hfw, lookup_insert_Some, !lookup_delete_Some.
    intros [[_ <-]|(_ & _ & _ & Hst)]; [lia|eauto].
  - intros e n. rewrite Hbw, Hfw, lookup_insert_Some, lookup_delete_Some.
    intros [[<- <-]|(Hne & Hne1 & He)].
    + split; [lia|]. replace (pid + nr + 1 - (nl + 1 + nr)) with (pid - nl) by lia.
      apply lookup_insert_eq.
    + destruct (Hcons _ _ He) as [Hn Hf]. split; [done|].
      rewrite lookup_insert_Some, !lookup_delete_Some. right.
      assert (e + 1 - n ≠ pid) by (intros Heq; rewrite Heq, Hpid in Hf; done).
      assert (e + 1 - n ≠ pid + 1).
      { intros Heq. rewrite Heq in Hf. apply Hnr1 in Hf. lia. }
      assert (e + 1 - n ≠ pid - nl).
      { intros Heq. destruct Hleft as [Hz|Hs]; [rewrite Hz in Heq; lia|].
        rewrite Heq, Hs in Hf. injection Hf as Hf. lia. }
      split_and!; by try done.
  - intros x. unfold covers. rewrite Hfw.
    setoid_rewrite lookup_insert_Some. do 2 setoid_rewrite lookup_delete_Some.
    split.
    + intros (st & n & [[<- <-]|(Hn1 & Hn2 & Hn3 & Hst)] & Hx); [|left; eauto].
      destruct (decide (x = pid)) as [|Hxp]; [by right|left].
      destruct (decide (x < pid)).
      * destruct Hleft as [?|Hs]; [lia|]. exists (pid - nl), nl.
        split; [done|lia].
      * destruct Hright as [?|Hs]; [lia|]. exists (pid + 1), nr.
        split; [done|lia].
    + intros [(st & n & Hst & Hx)| ->].
      * destruct (decide (st = pid - nl)) as [->|Hn1].
        { destruct Hleft as [Hz|Hs].
          - rewrite Hz, N.sub_0_r, Hpid in Hst. done.
          - rewrite Hs in Hst. injection Hst as <-.
            exists (pid - nl), (nl + 1 + nr). split; [by left|lia]. }
        destruct (decide (st = pid + 1)) as [->|Hn2].
        { apply Hnr1 in Hst as ->.
          exists (pid - nl), (nl + 1 + nr). split; [by left|lia]. }
        exists st, n. split; [|done]. right. split_and!; by try done.
      * exists (pid - nl), (nl + 1 + nr). split; [by left|lia].
Qed.

(** [merge] of distinct ids that are in no span. *)
Lemma hashmapMergeSpans_spec (l : list Pgid) (f : freelist) :
  spans_wf f → NoDup l → (∀ x, x ∈ l → ¬ covers (forwardMap f) x) →
  ∃ f', hashmapMergeSpans l f = Ok (tt, f') ∧
    spans_wf f' ∧
    (∀ x, covers (forwardMap f') x ↔ covers (forwardMap f) x ∨ x ∈ l) ∧
    pending f' = pending f ∧ allocs f' = allocs f ∧
    cache f' = cache f ∪ list_to_set l.
Proof.
  unfold hashmapMergeSpans. revert f.
  induction l as [|pid l IH]; intros f Hwf Hnd Hnc; simpl.
  - exists f. unfold ret. split_and!; try done.
    + intros x. rewrite elem_of_nil. tauto.
    + set_solver.
  - apply NoDup_cons in Hnd as [Hpid Hnd].
    assert (Hnc0 : ¬ covers (forwardMap f) pid) by (apply Hnc; left).
    destruct (mergeWithExistingSpan_step pid f Hwf Hnc0) as [Hwf1 Hcov1].
    destruct (mergeWithExistingSpan_maps pid f Hwf Hnc0)
      as (_ & _ & _ & _ & _ & _ & _ & Hp1 & Ha1 & Hc1).
    destruct (IH (mergeWithExistingSpan pid f) Hwf1 Hnd)
      as (f' & Hrun & Hwf' & Hcov' & Hp' & Ha' & Hc').
    { intros x Hx Hcx. apply Hcov1 in Hcx as [Hcx| ->]; [|done].
      apply (Hnc x); [by right|done]. }
    exists f'. unfold bind, modify. simpl. split_and!; try done.
    + intros x. rewrite Hcov', Hcov1, elem_of_cons. tauto.
    + by rewrite Hp'.
    + by rewrite Ha'.
    + rewrite Hc', Hc1. set_solver.
Qed.

(** ** [release] *)

Lemma safe2Release_spec (rtxids : list Txid) (a t : Txid) :
  safe2Release rtxids a t = true ↔ ¬ ∃ r, r ∈ rtxids ∧ a ≤ r < t.
Proof.
  unfold safe2Release. rewrite forallb_forall. split.
  - intros Hall (r & Hr & Hle). apply list_elem_of_In in Hr.
    specialize (Hall r Hr).
    apply negb_true_iff, andb_false_iff in Hall as [Hc|Hc].
    + apply N.leb_gt in Hc. lia.
    + apply N.ltb_ge in Hc. lia.
  - intros Hno r Hr. apply list_elem_of_In in Hr.
    apply negb_true_iff, andb_false_iff.
    destruct (N.leb_spec a r); [|by left].
    destruct (N.ltb_spec r t); [|by right].
    destruct Hno. exists r. split; [done|lia].
Qed.

Lemma swap_remove_snoc {A} (i : nat) (l : list A) (y : A) :
  swap_remove i (l ++ [y])
  = if decide (i < length l)%nat then <[i := y]> l else l.
Proof.
  unfold swap_remove. rewrite last_snoc, length_app. simpl.
  replace (length l + 1 - 1)%nat with (length l) by lia.
  case_decide as Hi.
  - rewrite insert_app_l by done.
    apply take_app_length'. by rewrite length_insert.
  - destruct (decide (i = length l)) as [->|Hne].
    + rewrite insert_app_r_alt, Nat.sub_diag by done. simpl.
      by rewrite take_app_length.
    + rewrite list_insert_ge by (rewrite length_app; simpl; lia).
      by rewrite take_app_length.
Qed.

Lemma swap_remove_delete {A} (i : nat) (l : list A) :
  (i < length l)%nat → swap_remove i l ≡ₚ delete i l.
Proof.
  destruct l as [|x l _] using rev_ind; [simpl; lia|].
  rewrite length_app. simpl. intros Hi. rewrite swap_remove_snoc.
  rewrite delete_take_drop. case_decide as Hlt.
  - rewrite insert_take_drop by done.
    rewrite take_app_le, drop_app_le by lia.
    apply Permutation_app_head, Permutation_cons_append.
  - assert (i = length l) as -> by lia.
    rewrite take_app_length, drop_ge by (rewrite length_app; simpl; lia).
    by rewrite app_nil_r.
Qed.

Lemma swap_remove_take {A} (i : nat) (l : list A) :
  (i < length l)%nat → take i (swap_remove i l) = take i l.
Proof.
  destruct l as [|x l _] using rev_ind; [simpl; lia|].
  rewrite length_app. simpl. intros Hi. rewrite swap_remove_snoc.
  rewrite take_app_le by lia. case_decide; [|done].
  by apply take_insert_ge.
Qed.

Lemma swap_remove_length {A} (i : nat) (l : list A) :
  (i < length l)%nat → length (swap_remove i l) = (length l - 1)%nat.
Proof.
  intros Hi. rewrite (Permutation_length (swap_remove_delete i l Hi)).
  rewrite delete_take_drop, length_app, length_take, length_drop. lia.
Qed.

Lemma swap_remove_drop {A} (i : nat) (l : list A) :
  (i < length l)%nat → drop i (swap_remove i l) ≡ₚ drop (S i) l.
Proof.
  intros Hi. apply (Permutation_app_inv_l (take i l)).
  rewrite <- delete_take_drop, <- (swap_remove_delete i l Hi).
  rewrite <- (swap_remove_take i l Hi). by rewrite take_drop.
Qed.

Lemma swap_remove_zip {A B} (i : nat) (l : list A) (k : list B) :
  length l = length k →
  zip (swap_remove i l) (swap_remove i k) = swap_remove i (zip l k).
Proof.
  destruct l as [|x l _] using rev_ind; destruct k as [|y k _] using rev_ind;
    rewrite ?length_app; simpl; try lia; [done|].
  intros Hlen. assert (Hlk : length l = length k) by lia.
  rewrite zip_with_app by done. simpl. rewrite !swap_remove_snoc.
  rewrite length_zip_with, <- Hlk, Nat.min_id.
  case_decide; [|done]. by rewrite insert_zip_with.
Qed.

(** The inner loop of [release]: the entries no reader sees leave the
    bucket for the list of released ids, the others stay. *)
Lemma release_loop_spec (fuel : nat) (rtxids : list Txid) (ftxid : Txid)
    (i : nat) (txp : txPending) (m : list Pgid) :
  length (ids txp) = length (alloctx txp) →
  (length (ids txp) - i < fuel)%nat →
  ∃ txp' m',
    release_loop fuel rtxids ftxid i txp m = Ok (txp', m') ∧
    length (ids txp') = length (alloctx txp') ∧
    entries txp' ≡ₚ
      take i (entries txp)
      ++ filter (λ e, ¬ safe_entry rtxids ftxid e) (drop i (entries txp)) ∧
    m' ≡ₚ m ++ (filter (safe_entry rtxids ftxid) (drop i (entries txp))).*1.
Proof.
  revert i txp m. induction fuel as [|fuel IH]; intros i txp m Hlen Hf; [lia|].
  assert (Hel : length (entries txp) = length (ids txp)).
  { unfold entries. rewrite length_zip_with. lia. }
  simpl. destruct (ids txp !! i) as [pid|] eqn:Hi.
  - assert (Hlt : (i < length (ids txp))%nat) by (by eapply lookup_lt_Some).
    destruct (lookup_lt_is_Some_2 (alloctx txp) i) as [a Ha]; [lia|].
    rewrite Ha.
    assert (He : entries txp !! i = Some (pid, a)).
    { unfold entries. rewrite lookup_zip_with, Hi. simpl. by rewrite Ha. }
    rewrite (drop_S _ _ _ He).
    destruct (safe2Release rtxids a ftxid) eqn:Hs.
    + destruct (IH i (mkTxPending (swap_remove i (ids txp))
                        (swap_remove i (alloctx txp))) (m ++ [pid]))
        as (txp' & m' & Hrun & Hlen' & He' & Hm').
      { simpl. rewrite !swap_remove_length by lia. lia. }
      { simpl. rewrite swap_remove_length by lia. lia. }
      exists txp', m'. split_and!; [done|done| |].
      * rewrite He'. unfold entries at 1 2. simpl.
        rewrite swap_remove_zip by done. fold (entries txp).
        rewrite swap_remove_take, swap_remove_drop by lia.
        by rewrite filter_cons_False by (intros Hn; by apply Hn).
      * rewrite Hm'. unfold entries at 1. simpl.
        rewrite swap_remove_zip by done. fold (entries txp).
        rewrite swap_remove_drop by lia.
        rewrite filter_cons_True by done. rewrite fmap_cons. simpl.
        by rewrite <- app_assoc.
    + destruct (IH (S i) txp m) as (txp' & m' & Hrun & Hlen' & He' & Hm');
        [done|lia|].
      exists txp', m'. split_and!; [done|done| |].
      * rewrite He', (take_S_r _ _ _ He), <- app_assoc. simpl.
        by rewrite filter_cons_True
          by (unfold safe_entry; simpl; by rewrite Hs).
      * rewrite Hm'.
        by rewrite filter_cons_False
          by (unfold safe_entry; simpl; by rewrite Hs).
  - apply lookup_ge_None in Hi.
    exists txp, m. split_and!; [done|done| |].
    + rewrite drop_ge, take_ge by lia. simpl. by rewrite app_nil_r.
    + rewrite drop_ge by lia. simpl. by rewrite app_nil_r.
Qed.

Lemma release_bucket_spec (rtxids : list Txid) (t : Txid) (m : list Pgid)
    (f : freelist) :
  (∀ txp, pending f !! t = Some txp →
          length (ids txp) = length (alloctx txp)) →
  ∃ f' m',
    release_bucket rtxids t m f = Ok (m', f') ∧
    f' = set_pending (pending f') f ∧
    m' ≡ₚ m ++ released_ids rtxids f t ∧
    (∀ t', t' ≠ t → pending f' !! t' = pending f !! t') ∧
    match pending f !! t with
    | None => pending f' !! t = None
    | Some txp =>
        match pending f' !! t with
        | None => kept_entries rtxids t txp = []
        | Some txp' =>
            ids txp' ≠ [] ∧ length (ids txp') = length (alloctx txp') ∧
            entries txp' ≡ₚ kept_entries rtxids t txp
        end
    end.
Proof.
  intros Hlen. unfold release_bucket, released_ids, kept_entries.
  unfold bind, gets. cbn [rbind fst snd].
  destruct (pending f !! t) as [txp|] eqn:Hp.
  - destruct (release_loop_spec (S (length (ids txp))) rtxids t 0 txp m)
      as (txp' & m' & Hrun & Hlen' & He & Hm); [by apply Hlen|lia|].
    unfold lift. rewrite Hrun. unfold modify, ret. simpl.
    rewrite take_0, drop_0 in He. simpl in He.
    rewrite drop_0 in Hm.
    destruct (decide (length (ids txp') = 0%nat)) as [H0|Hn0]; simpl.
    + eexists _, _. split; [done|]. simpl. split_and!; try done.
      * intros t' Hne. by rewrite lookup_delete_ne.
      * rewrite lookup_delete_eq. symmetry. apply Permutation_nil_l.
        rewrite <- He.
        unfold entries. apply length_zero_iff_nil in H0. by rewrite H0.
    + eexists _, _. split; [done|]. simpl. split_and!; try done.
      * intros t' Hne. by rewrite lookup_insert_ne.
      * rewrite lookup_insert_eq. split_and!; try done.
        intros Hnil. by rewrite Hnil in Hn0.
  - exists f, m. split_and!; try done.
    + by destruct f.
    + by rewrite app_nil_r.
Qed.

Lemma list_bind_ext_in {A B} (g h : A → list B) (l : list A) :
  (∀ x, x ∈ l → g x = h x) → l ≫= g = l ≫= h.
Proof.
  induction l as [|x l IH]; intros Heq; csimpl; [done|].
  rewrite (Heq x) by left. rewrite IH; [done|].
  intros y Hy. apply Heq. by right.
Qed.

(** The outer loop of [release], whatever the order of the buckets. *)
Lemma release_buckets_spec (rtxids : list Txid) (order : list Txid)
    (m : list Pgid) (f : freelist) :
  (∀ t txp, pending f !! t = Some txp →
            length (ids txp) = length (alloctx txp)) →
  NoDup order →
  ∃ f' m',
    release_buckets rtxids order m f = Ok (m', f') ∧
    f' = set_pending (pending f') f ∧
    m' ≡ₚ m ++ (order ≫= released_ids rtxids f) ∧
    (∀ t, t ∉ order → pending f' !! t = pending f !! t) ∧
    (∀ t, t ∈ order →
       match pending f !! t with
       | None => pending f' !! t = None
       | Some txp =>
           match pending f' !! t with
           | None => kept_entries rtxids t txp = []
           | Some txp' =>
               ids txp' ≠ [] ∧ length (ids txp') = length (alloctx txp') ∧
               entries txp' ≡ₚ kept_entries rtxids t txp
           end
       end).
Proof.
  revert m f. induction order as [|t order IH]; intros m f Hlen Hnd.
  - exists f, m. simpl. unfold ret. split_and!; try done.
    + by destruct f.
    + csimpl. by rewrite app_nil_r.
    + intros t Ht. by apply elem_of_nil in Ht.
  - apply NoDup_cons in Hnd as [Ht Hnd].
    destruct (release_bucket_spec rtxids t m f (Hlen t))
      as (f1 & m1 & Hrun1 & Hf1 & Hm1 & Hoth1 & Hat1).
    assert (Hlen1 : ∀ t' txp, pending f1 !! t' = Some txp →
                              length (ids txp) = length (alloctx txp)).
    { intros t' txp Hl. destruct (decide (t' = t)) as [->|Hne].
      - destruct (pending f !! t); rewrite Hl in Hat1; [|done].
        by destruct Hat1 as (_ & ? & _).
      - rewrite Hoth1 in Hl by done. by eapply Hlen. }
    destruct (IH m1 f1 Hlen1 Hnd) as (f' & m' & Hrun & Hf' & Hm' & Hoth & Hat).
    exists f', m'. simpl. unfold bind. rewrite Hrun1. simpl.
    split_and!; try done.
    + rewrite Hf', Hf1. by destruct f.
    + rewrite Hm', Hm1. csimpl. rewrite <- app_assoc.
      do 2 apply Permutation_app_head.
      rewrite (list_bind_ext_in (released_ids rtxids f1)
                 (released_ids rtxids f)); [done|].
      intros t' Ht'. unfold released_ids. rewrite Hoth1; [done|].
      by intros ->.
    + intros t' Hn. apply not_elem_of_cons in Hn as [Hne Hn].
      by rewrite Hoth, Hoth1.
    + intros t' [->|Hin]%elem_of_cons.
      * by rewrite Hoth.
      * assert (t' ≠ t) by (by intros ->).
        specialize (Hat t' Hin). by rewrite Hoth1 in Hat.
Qed.

Lemma NoDup_filter_fst {A B} (P : A * B → Prop) `{∀ e, Decision (P e)}
    (l : list (A * B)) :
  NoDup l.*1 → NoDup (filter P l).*1.
Proof.
  induction l as [|e l IH]; csimpl; [done|].
  intros [Hn Hnd]%NoDup_cons. rewrite filter_cons.
  case_decide; csimpl; [|by apply IH].
  apply NoDup_cons. split; [|by apply IH].
  intros (e' & Heq & Hin)%list_elem_of_fmap.
  apply list_elem_of_filter in Hin as [_ Hin].
  apply Hn. apply list_elem_of_fmap. by exists e'.
Qed.

Lemma entries_fst_inj (txp : txPending) (x : Pgid) (a a' : Txid) :
  NoDup (ids txp) → (x, a) ∈ entries txp → (x, a') ∈ entries txp → a = a'.
Proof.
  unfold entries. intros Hnd [i Hi]%list_elem_of_lookup [j Hj]%list_elem_of_lookup.
  apply lookup_zip_with_Some in Hi as (x1 & a1 & [= <- <-] & Hxi & Hai).
  apply lookup_zip_with_Some in Hj as (x2 & a2 & [= <- <-] & Hxj & Haj).
  assert (i = j) as -> by (by eapply NoDup_lookup).
  congruence.
Qed.

Lemma elem_of_released_ids (rtxids : list Txid) (f : freelist) (t : Txid)
    (x : Pgid) :
  x ∈ released_ids rtxids f t ↔
  ∃ txp a, pending f !! t = Some txp ∧ (x, a) ∈ entries txp ∧
           safe2Release rtxids a t = true.
Proof.
  unfold released_ids. destruct (pending f !! t) as [txp|].
  - rewrite list_elem_of_fmap. split.
    + intros ([y a] & -> & [Hs Hin]%list_elem_of_filter). by exists txp, a.
    + intros (txp' & a & [= <-] & Hin & Hs). exists (x, a). split; [done|].
      by apply list_elem_of_filter.
  - rewrite elem_of_nil. split; [done|]. by intros (? & ? & ? & _).
Qed.

(** C2. [release(open_readers)], the buckets of [pending] visited in any
    order, on a manager whose span maps agree and whose pending ids are
    distinct and in no span. An entry [{id, a}] under the writer [f] is in
    the free spans after the call if and only if no reader [r] of
    [open_readers] has [a ≤ r < f]; an entry that some reader sees stays in
    [pending[f]]; a bucket that is left holds exactly the entries that were
    not safe, and a bucket with no such entry is deleted. The ids that were
    free stay free. [release] itself visits the buckets in one such order. *)
Theorem release_spec (order rtxids : list Txid) (f : freelist) :
  spans_wf f → pending_wf f →
  NoDup order → (∀ t, t ∈ order ↔ is_Some (pending f !! t)) →
  ∃ f', release_in order rtxids f = Ok (tt, f') ∧
    (∀ t txp x a, pending f !! t = Some txp → (x, a) ∈ entries txp →
       (x ∈ free_page_ids f' ↔ ¬ ∃ r, r ∈ rtxids ∧ a ≤ r < t) ∧
       ((∃ r, r ∈ rtxids ∧ a ≤ r < t) →
        ∃ txp', pending f' !! t = Some txp' ∧ (x, a) ∈ entries txp')) ∧
    (∀ t txp', pending f' !! t = Some txp' →
       ids txp' ≠ [] ∧
       ∃ txp, pending f !! t = Some txp ∧
              entries txp' ≡ₚ kept_entries rtxids t txp) ∧
    (∀ t txp, pending f !! t = Some txp →
       kept_entries rtxids t txp = [] → pending f' !! t = None) ∧
    (∀ x, x ∈ free_page_ids f → x ∈ free_page_ids f') ∧
    allocs f' = allocs f ∧
    (order = (map_to_list (pending f)).*1 → release rtxids f = Ok (tt, f')).
Proof.
  intros Hwf [Hpw Hcross] Hnd Hord.
  destruct (release_buckets_spec rtxids order [] f) as
    (f1 & m1 & Hrun1 & Hf1 & Hm1 & Hoth & Hat); [|done|].
  { intros t txp Ht. by apply (Hpw t txp Ht). }
  simpl in Hm1.
  assert (Hin1 : ∀ x, x ∈ m1 ↔
    ∃ t txp a, pending f !! t = Some txp ∧ (x, a) ∈ entries txp ∧
               safe2Release rtxids a t = true).
  { intros x. rewrite Hm1, list_elem_of_bind. split.
    - intros (t & Hx & _). apply elem_of_released_ids in Hx. naive_solver.
    - intros (t & txp & a & Ht & Hx & Hs). exists t. split.
      + apply elem_of_released_ids. by exists txp, a.
      + apply Hord. by rewrite Ht. }
  assert (Hids : ∀ t txp x a, pending f !! t = Some txp →
                  (x, a) ∈ entries txp → x ∈ ids txp).
  { intros t txp x a _ Hx. unfold entries in Hx. by eapply elem_of_zip_l. }
  assert (Hnd1 : NoDup m1).
  { rewrite Hm1. apply NoDup_bind; [| |done].
    - intros t1 t2 x _ _ Hx1 Hx2.
      apply elem_of_released_ids in Hx1 as (txp1 & a1 & Ht1 & Hx1 & _).
      apply elem_of_released_ids in Hx2 as (txp2 & a2 & Ht2 & Hx2 & _).
      eapply Hcross; eauto.
    - intros t _. unfold released_ids.
      destruct (pending f !! t) as [txp|] eqn:Ht; [|constructor].
      apply NoDup_filter_fst. destruct (Hpw t txp Ht) as (Hl & Hn & _).
      unfold entries. rewrite fst_zip by lia. done. }
  assert (Hfw1 : forwardMap f1 = forwardMap f) by (by rewrite Hf1).
  assert (Hwf1 : spans_wf f1).
  { unfold spans_wf. rewrite Hf1. simpl. exact Hwf. }
  destruct (hashmapMergeSpans_spec m1 f1 Hwf1 Hnd1)
    as (f' & Hrun & _ & Hcov & Hp' & Ha' & _).
  { intros x Hx. apply Hin1 in Hx as (t & txp & a & Ht & Hx & _).
    rewrite Hfw1. destruct (Hpw t txp Ht) as (_ & _ & Hnc). eauto. }
  assert (Hall : release_in order rtxids f = Ok (tt, f')).
  { unfold release_in, bind. rewrite Hrun1. simpl. exact Hrun. }
  exists f'. split; [exact Hall|].
  split_and!; [| | | | |by intros ->].
  - intros t txp x a Ht Hx.
    destruct (Hpw t txp Ht) as (Hl & Hn & Hnc).
    assert (Hto : t ∈ order) by (apply Hord; by rewrite Ht).
    split.
    + rewrite elem_of_free_page_ids, Hcov, Hfw1, <- safe2Release_spec, Hin1.
      split.
      * intros [Hc|(t' & txp' & a' & Ht' & Hx' & Hs)].
        { destruct (Hnc x); eauto. }
        assert (t' = t) as -> by (eapply Hcross; eauto).
        rewrite Ht in Ht'. injection Ht' as <-.
        by rewrite (entries_fst_inj txp x a a' Hn Hx Hx').
      * intros Hs. right. by exists t, txp, a.
    + intros Hr.
      assert (Hns : safe2Release rtxids a t ≠ true).
      { intros Hs. apply safe2Release_spec in Hs. by apply Hs. }
      assert (Hk : (x, a) ∈ kept_entries rtxids t txp).
      { apply list_elem_of_filter. split; [|done]. exact Hns. }
      specialize (Hat t Hto). rewrite Ht in Hat. rewrite Hp'.
      destruct (pending f1 !! t) as [txp'|].
      * exists txp'. split; [done|]. destruct Hat as (_ & _ & He).
        by rewrite He.
      * rewrite Hat in Hk. by apply elem_of_nil in Hk.
  - intros t txp' Ht'. rewrite Hp' in Ht'.
    destruct (decide (t ∈ order)) as [Hto|Hto].
    + specialize (Hat t Hto). rewrite Ht' in Hat.
      destruct (pending f !! t) as [txp|]; [|done].
      destruct Hat as (? & _ & ?). eauto.
    + rewrite Hoth in Ht' by done. destruct Hto. apply Hord. by rewrite Ht'.
  - intros t txp Ht Hk. rewrite Hp'.
    assert (Hto : t ∈ order) by (apply Hord; by rewrite Ht).
    specialize (Hat t Hto). rewrite Ht in Hat.
    destruct (pending f1 !! t) as [txp'|]; [|done].
    destruct Hat as (Hne & Hl & He). rewrite Hk in He.
    apply Permutation_nil_r in He. destruct Hne.
    unfold entries in He. apply zip_nil_inv in He as [?|He]; [done|].
    rewrite He in Hl. by apply length_zero_iff_nil.
  - intros x. rewrite !elem_of_free_page_ids, Hcov, Hfw1. by left.
  - by rewrite Ha', Hf1.
Qed.

(** The order in which [release] visits the buckets is one of those. *)
Lemma release_order (rtxids : list Txid) (f : freelist) :
  release rtxids f = release_in (map_to_list (pending f)).*1 rtxids f ∧
  NoDup (map_to_list (pending f)).*1 ∧
  ∀ t, t ∈ (map_to_list (pending f)).*1 ↔ is_Some (pending f !! t).
Proof.
  split_and!.
  - done.
  - apply NoDup_fst_map_to_list.
  - intros t. rewrite list_elem_of_fmap. split.
    + intros ([t' txp] & -> & Hin). apply elem_of_map_to_list in Hin. eauto.
    + intros [txp Ht]. exists (t, txp). split; [done|].
      by apply elem_of_map_to_list.
Qed.

(** ** [reload] and [noSyncReload] *)

Lemma foldl_addSpan_set_cache (spans : list (N * N)) (c : gset N)
    (g : freelist) :
  foldl (λ g sp, addSpan sp.1 sp.2 g) (set_cache c g) spans
  = set_cache c (foldl (λ g sp, addSpan sp.1 sp.2 g) g spans).
Proof.
  revert g. induction spans as [|sp spans IH]; intros g; simpl; [done|].
  by rewrite <- IH.
Qed.

(** Installing ids forgets the spans that were there. *)
Lemma install_spans_ids_installed (a l : list Pgid) (f : freelist) :
  install_spans a (ids_installed l f)
  = set_cache (cache (ids_installed l f)) (install_spans a f).
Proof.
  unfold install_spans. rewrite <- foldl_addSpan_set_cache.
  f_equal. unfold ids_installed, set_spans, set_cache. simpl.
  destruct (install_spans_fields l f) as (-> & _ & -> & ->). done.
Qed.

Lemma NoDup_free_page_ids (f : freelist) :
  coalesced (forwardMap f) → NoDup (free_page_ids f).
Proof.
  intros Hco. unfold free_page_ids. rewrite sort_pgids_perm.
  apply NoDup_bind.
  - intros [s1 n1] [s2 n2] y H1%elem_of_map_to_list H2%elem_of_map_to_list
      Hy1 Hy2.
    unfold span_ids in *. simpl in *.
    apply elem_of_pgid_seq in Hy1, Hy2.
    destruct (Hco _ _ H1) as [_ Hap1]. destruct (Hco _ _ H2) as [_ Hap2].
    destruct (decide (s1 = s2)) as [->|Hne]; [congruence|].
    destruct (decide (s1 < s2)).
    + specialize (Hap1 _ _ H2). lia.
    + specialize (Hap2 _ _ H1). lia.
  - intros sp _. apply NoDup_pgid_seq.
  - apply NoDup_map_to_list.
Qed.

Lemma StronglySorted_lt_le (l : list Pgid) :
  StronglySorted N.lt l → StronglySorted N.le l ∧ NoDup l.
Proof.
  induction 1 as [|x l Hs [IH1 IH2] Hx]; [split; constructor|].
  rewrite Forall_forall in Hx. split.
  - constructor; [done|]. apply Forall_forall. intros y Hy.
    specialize (Hx y Hy). lia.
  - constructor; [|done]. intros Hin. specialize (Hx x Hin). lia.
Qed.

Lemma StronglySorted_le_filter (P : N → Prop) `{∀ x, Decision (P x)}
    (l : list Pgid) :
  StronglySorted N.le l → StronglySorted N.le (filter P l).
Proof.
  induction 1 as [|x l Hs IH Hx]; [constructor|].
  rewrite filter_cons. case_decide; [|done].
  constructor; [done|]. rewrite Forall_forall in *.
  intros y [_ Hy]%list_elem_of_filter. by apply Hx.
Qed.

(** The free ids after the ids of an ascending list are installed are the
    list itself. *)
Lemma free_page_ids_installed (l : list Pgid) (f : freelist) :
  StronglySorted N.lt l → free_page_ids (ids_installed l f) = l.
Proof.
  intros Hs. destruct (StronglySorted_lt_le l Hs) as [Hle Hnd].
  pose proof (sort_pgids_id l Hle) as Hid.
  apply (StronglySorted_unique N.le); [apply sort_pgids_sorted|done|].
  apply NoDup_Permutation; [|done|].
  - apply NoDup_free_page_ids. unfold ids_installed. simpl.
    rewrite <- Hid. by apply install_spans_coalesced.
  - intros x. rewrite <- Hid at 1. apply ids_installed_free.
Qed.

(** On a Freelist page that stores at least one id, the ids ascending,
    [reload] and [noSyncReload] of the decoded ids leave the same manager:
    the free ids are the decoded ids that are not pending, and the cache
    holds them and the pending ids. *)
Lemma reload_agrees (p : Page) (f : freelist) (l : list Pgid) :
  IsFreelistPage p = true → FreelistPageIds p = Ok l → l ≠ [] →
  StronglySorted N.lt l →
  reload p f = noSyncReload l f ∧
  ∃ f', noSyncReload l f = Ok (tt, f') ∧
    (∀ x, x ∈ free_page_ids f' ↔ x ∈ l ∧ x ∉ pending_ids f) ∧
    (∀ x, x ∈ cache f' ↔ x ∈ free_page_ids f' ∨ x ∈ pending_ids f).
Proof.
  intros Hfl Hids Hne Hs.
  destruct (StronglySorted_lt_le l Hs) as [Hle Hnd].
  assert (Hno : noSyncReload l f
    = Ok (tt, ids_installed
                (filter (λ i, i ∉ (list_to_set (pending_ids f) : gset N)) l) f)).
  { unfold noSyncReload, not_pending, bind, gets, ret. simpl.
    apply hashmapReadIDs_run. }
  split.
  - rewrite Hno. unfold reload. unfold bind at 1.
    rewrite read_unfold, Hfl, Hids.
    destruct (decide (length l = 0%nat)) as [H0|_].
    { by apply length_zero_iff_nil in H0. }
    simpl. rewrite (sort_pgids_id l Hle).
    unfold bind, hashmapGetFreePageIDs, not_pending, gets, ret. simpl.
    rewrite free_page_ids_installed by done.
    rewrite hashmapReadIDs_run. do 2 f_equal.
    assert (Hpi : pending_ids (ids_installed l f) = pending_ids f).
    { unfold pending_ids, ids_installed. simpl.
      by destruct (install_spans_fields l f) as (-> & _). }
    rewrite Hpi. unfold ids_installed at 1 3.
    rewrite install_spans_ids_installed, Hpi. done.
  - eexists. split; [exact Hno|]. split.
    + intros x. rewrite elem_of_free_page_ids. unfold ids_installed. simpl.
      rewrite install_spans_covers.
      * rewrite list_elem_of_filter, elem_of_list_to_set. tauto.
      * by apply StronglySorted_le_filter.
    + intros x. unfold ids_installed at 1. simpl.
      rewrite elem_of_union, !elem_of_list_to_set. done.
Qed.

(** * Further properties of the operations *)

Lemma elem_of_pending_ids (f : freelist) (x : N) :
  x ∈ pending_ids f ↔ ∃ t txp, pending f !! t = Some txp ∧ x ∈ ids txp.
Proof.
  unfold pending_ids. rewrite list_elem_of_bind. split.
  - intros ([t txp] & Hx & Hin%elem_of_map_to_list). by exists t, txp.
  - intros (t & txp & Ht & Hx). exists (t, txp). split; [done|].
    by apply elem_of_map_to_list.
Qed.

(** ** [pending_count] and [copyall] *)

Lemma pending_count_foldl (l : list (N * txPending)) (c : Z) :
  (0 ≤ c)%Z →
  (c + Z.of_nat (length (l ≫= (λ kv, ids kv.2))) < 2 ^ 63)%Z →
  foldl (λ c kv, int_wrap (c + len (ids kv.2))) c l
  = (c + Z.of_nat (length (l ≫= (λ kv, ids kv.2))))%Z.
Proof.
  unfold len. revert c.
  induction l as [|kv l IH]; intros c Hc Hb; csimpl in *.
  - lia.
  - rewrite length_app in Hb.
    rewrite int_wrap_small by lia. rewrite IH by lia.
    rewrite length_app. lia.
Qed.

(** [pending_count] is the number of pending ids, over all the buckets, as
    long as that number is an [int]. *)
Theorem pending_count_length (f : freelist) :
  (Z.of_nat (length (pending_ids f)) < 2 ^ 63)%Z →
  pending_count f = Ok (Z.of_nat (length (pending_ids f)), f).
Proof.
  intros Hb. unfold pending_count, gets, pending_count_of. do 2 f_equal.
  unfold pending_ids in *. rewrite pending_count_foldl; lia.
Qed.

(** [copyall] panics when [dst] is shorter than the number of free and
    pending ids. Otherwise it returns, leaves the manager as it was, and
    [dst] starts with the free and the pending ids (each as often as the
    manager holds it) in ascending order, its other elements in place. *)
Theorem copyall_sorted (dst : list Pgid) (f : freelist) :
  let n := (length (free_page_ids f) + length (pending_ids f))%nat in
  ((length dst < n)%nat → is_panic (copyall dst f)) ∧
  ((n ≤ length dst)%nat →
   ∃ l, copyall dst f = Ok (l ++ drop n dst, f) ∧
        length l = n ∧
        StronglySorted N.le l ∧
        l ≡ₚ free_page_ids f ++ pending_ids f).
Proof.
  intros n. split.
  - intros Hlt. unfold copyall, hashmapGetFreePageIDs, Mergepgids.
    unfold bind, gets, lift. simpl.
    assert (Hs : length (sort_pgids (pending_ids f)) = length (pending_ids f))
      by apply Permutation_length, sort_pgids_perm.
    rewrite Hs.
    destruct (Nat.ltb_spec (length dst)
                (length (free_page_ids f) + length (pending_ids f)));
      [done|]. subst n. lia.
  - intros Hle. eexists. split; [by apply copyall_run|]. split_and!.
    + apply all_ids_length.
    + apply Sorted_StronglySorted; [apply _|].
      apply Sorted_list_merge; [apply _|..]; apply StronglySorted_Sorted;
        apply sort_pgids_sorted.
    + rewrite merge_Permutation. by rewrite sort_pgids_perm.
Qed.

(** ** [reindex] *)

(** [reindex] changes the cache alone; the cache it leaves holds exactly the
    ids in spans and the pending ids; a second [reindex] changes nothing,
    and neither does the first on a manager whose cache was that one. *)
Theorem reindex_spec (f : freelist) :
  ∃ f', reindex f = Ok (tt, f') ∧
    f' = set_cache (cache f') f ∧
    cache_wf f' ∧
    reindex f' = Ok (tt, f') ∧
    (cache_wf f → f' = f).
Proof.
  eexists. split; [reflexivity|]. simpl. split_and!.
  - done.
  - intros x. simpl. fold (pending_ids f).
    rewrite elem_of_union, !elem_of_list_to_set, elem_of_free_page_ids. done.
  - done.
  - intros Hc. destruct f as [fi al pe ca fm fw bw n]. unfold set_cache. simpl.
    f_equal. apply set_eq. intros x. rewrite (Hc x). simpl.
    rewrite elem_of_union, !elem_of_list_to_set.
    change (x ∈ free_page_ids (mkFreelist fi al pe ca fm fw bw n)
            ∨ x ∈ pending_ids (mkFreelist fi al pe ca fm fw bw n)
            ↔ covers fw x
              ∨ x ∈ pending_ids (mkFreelist fi al pe ca fm fw bw n)).
    by rewrite elem_of_free_page_ids.
Qed.

(** ** [free], further *)

(** Every field of the manager a call of [free] that returns leaves. *)
Lemma free_ok_inv (txid : Txid) (p : Page) (f f' : freelist) (u : unit) :
  free txid p f = Ok (u, f') →
  let a := default 0 (allocs f !! id p) in
  1 < id p ∧
  (∀ i, i ∈ free_range p → i ∉ cache f) ∧
  pending f' = <[txid := append_pending (free_range p) a
                           (default (mkTxPending [] []) (pending f !! txid))]>
                 (pending f) ∧
  cache f' = cache f ∪ list_to_set (free_range p) ∧
  allocs f' = delete (id p) (allocs f) ∧
  forwardMap f' = forwardMap f ∧ backwardMap f' = backwardMap f ∧
  freemaps f' = freemaps f ∧ freePagesCount f' = freePagesCount f ∧
  free_ids f' = free_ids f.
Proof.
  intros Hfree a.
  assert (Hid : 1 < id p).
  { unfold free in Hfree. destruct (N.leb_spec (id p) 1); [done|lia]. }
  rewrite free_unfold in Hfree by done. fold a in Hfree.
  destruct (assertions && bool_decide (a = txid)); [done|].
  apply free_loop_ok in Hfree.
  pose proof (for_each_free_body txid a (free_range p)
                (free_prepared txid p f) (NoDup_pgid_seq _ _)) as Hl.
  rewrite Hfree in Hl. simpl in Hl.
  destruct Hl as (Hc & Hp & Hca & Hal & Hfi & Hfm & Hfw & Hbw & Hn).
  split_and!; try done.
  rewrite Hp. apply map_eq. intros t.
  destruct (decide (txid = t)) as [->|Hne].
  - rewrite lookup_alter_eq, lookup_insert_eq.
    destruct (pending f !! t) as [txp|] eqn:E; simpl.
    + by rewrite E.
    + by rewrite lookup_insert_eq.
  - rewrite lookup_alter_ne, lookup_insert_ne by done.
    destruct (pending f !! txid); [done|]. by rewrite lookup_insert_ne.
Qed.

Lemma free_range_nonempty (p : Page) :
  id p + overflow p < max_uint64 →
  id p ∈ free_range p ∧
  length (free_range p) = N.to_nat (overflow p + 1).
Proof.
  unfold max_uint64. intros Hb. split.
  - apply elem_of_free_range. rewrite wrap64_small by lia. lia.
  - unfold free_range. rewrite length_pgid_seq, wrap64_small by lia. lia.
Qed.

(** [free] keeps the invariant of the manager. *)
Theorem free_preserves_inv (txid : Txid) (p : Page) (f f' : freelist)
    (u : unit) :
  manager_inv f → free txid p f = Ok (u, f') → manager_inv f'.
Proof.
  intros (Hsw & [Hpw Hcross] & Hcw) Hfree.
  destruct (free_ok_inv _ _ _ _ _ Hfree)
    as (_ & Hfresh & Hp & Hc & _ & Hfw & Hbw & _).
  set (a := default 0 (allocs f !! id p)) in *.
  set (old := default (mkTxPending [] []) (pending f !! txid)) in *.
  assert (Hold : ∀ x, x ∈ ids old → x ∈ pending_ids f).
  { intros x Hx. apply elem_of_pending_ids. unfold old in *.
    destruct (pending f !! txid) as [txp|] eqn:E; simpl in *; [eauto|].
    by apply elem_of_nil in Hx. }
  assert (Hin : ∀ x, x ∈ pending_ids f → x ∈ cache f).
  { intros x Hx. apply Hcw. by right. }
  assert (Hbucket : ∀ t txp, pending f' !! t = Some txp →
    (t = txid ∧ txp = append_pending (free_range p) a old) ∨
    (t ≠ txid ∧ pending f !! t = Some txp)).
  { intros t txp. rewrite Hp, lookup_insert_Some. naive_solver. }
  assert (Hpid : ∀ x, x ∈ pending_ids f' ↔
                      x ∈ pending_ids f ∨ x ∈ free_range p).
  { intros x. rewrite !elem_of_pending_ids. split.
    - intros (t & txp & Ht & Hx). apply Hbucket in Ht as [[-> ->]|[Hne Ht]].
      + simpl in Hx. apply elem_of_app in Hx as [Hx|Hx]; [|by right].
        left. by apply elem_of_pending_ids, Hold.
      + left. eauto.
    - intros [(t & txp & Ht & Hx)|Hx].
      + destruct (decide (t = txid)) as [->|Hne].
        * exists txid, (append_pending (free_range p) a old).
          rewrite Hp, lookup_insert_eq. split; [done|]. simpl.
          apply elem_of_app. left. unfold old. by rewrite Ht.
        * exists t, txp. by rewrite Hp, lookup_insert_ne.
      + exists txid, (append_pending (free_range p) a old).
        rewrite Hp, lookup_insert_eq. split; [done|]. simpl.
        apply elem_of_app. by right. }
  split_and!.
  - unfold spans_wf. rewrite Hfw, Hbw. exact Hsw.
  - split.
    + intros t txp Ht. rewrite Hfw.
      apply Hbucket in Ht as [[-> ->]|[Hne Ht]]; [|by apply (Hpw t)].
      assert (Holdwf : length (ids old) = length (alloctx old) ∧
                       NoDup (ids old)).
      { unfold old. destruct (pending f !! txid) as [txp|] eqn:E; simpl.
        - destruct (Hpw _ _ E) as (? & ? & _). done.
        - split; [done|constructor]. }
      destruct Holdwf as [Hl Hn]. simpl. split_and!.
      * rewrite !length_app, length_replicate. lia.
      * apply NoDup_app. split_and!; [done| |apply NoDup_pgid_seq].
        intros x Hx Hr. apply (Hfresh x Hr). by apply Hin, Hold.
      * intros x [Hx|Hx]%elem_of_app Hcov.
        -- apply Hold, elem_of_pending_ids in Hx as (t & txp & Ht & Hx).
           destruct (Hpw _ _ Ht) as (_ & _ & Hnc). by apply (Hnc x).
        -- apply (Hfresh x Hx). apply Hcw. by left.
    + intros t1 t2 txp1 txp2 x Ht1 Ht2 Hx1 Hx2.
      apply Hbucket in Ht1 as [[-> ->]|[Hne1 Ht1]];
        apply Hbucket in Ht2 as [[-> ->]|[Hne2 Ht2]]; [done| | |by eauto].
      * simpl in Hx1. apply elem_of_app in Hx1 as [Hx1|Hx1].
        -- unfold old in Hx1.
           destruct (pending f !! txid) as [txp|] eqn:E; simpl in Hx1;
             [by eauto|by apply elem_of_nil in Hx1].
        -- destruct (Hfresh x Hx1). apply Hin, elem_of_pending_ids. eauto.
      * simpl in Hx2. apply elem_of_app in Hx2 as [Hx2|Hx2].
        -- unfold old in Hx2.
           destruct (pending f !! txid) as [txp|] eqn:E; simpl in Hx2;
             [by eauto|by apply elem_of_nil in Hx2].
        -- destruct (Hfresh x Hx2). apply Hin, elem_of_pending_ids. eauto.
  - intros x. rewrite Hc, Hfw, Hpid, elem_of_union, elem_of_list_to_set.
    rewrite (Hcw x). tauto.
Qed.

(** A page that was freed cannot be freed again: whatever the transaction,
    the second [free] panics. *)
Theorem free_twice_panics (txid txid' : Txid) (p : Page) (f f' : freelist)
    (u : unit) :
  id p + overflow p < max_uint64 →
  free txid p f = Ok (u, f') → is_panic (free txid' p f').
Proof.
  intros Hb Hfree.
  destruct (free_ok_inv _ _ _ _ _ Hfree) as (Hid & _ & _ & Hc & _).
  destruct (free_range_nonempty p Hb) as [Hin _].
  rewrite free_unfold by done.
  destruct (assertions && bool_decide (default 0 (allocs f' !! id p) = txid'));
    [done|].
  rewrite free_loop_run
    by (unfold max_uint64 in *; rewrite ?wrap64_small by lia; lia).
  match goal with |- context [for_each ?l ?b ?g] =>
    pose proof (for_each_free_body txid' (default 0 (allocs f' !! id p)) l g
                  (NoDup_pgid_seq _ _)) as Hl;
    destruct (for_each l b g) as [[v g']| |] end; [|done|done].
  destruct Hl as (Hfresh & _). destruct (Hfresh (id p)).
  - apply elem_of_pgid_seq. unfold max_uint64 in *.
    rewrite wrap64_small by lia. lia.
  - unfold free_prepared. simpl. rewrite Hc.
    apply elem_of_union. right. by apply elem_of_list_to_set.
Qed.

(** The edge of the id space: when [id + overflow] passes the largest
    [uint64], the bound of the loop wraps below [id] and the loop body never
    runs. [free] returns without a panic, no id becomes pending or cached,
    yet the allocator of the page is forgotten and the transaction has a
    bucket. *)
Theorem free_wrapped_range (txid : Txid) (p : Page) (f : freelist) :
  1 < id p → id p < 2 ^ 64 → overflow p < 2 ^ 64 →
  2 ^ 64 ≤ id p + overflow p →
  assertions = false ∨ default 0 (allocs f !! id p) ≠ txid →
  ∃ f', free txid p f = Ok (tt, f') ∧
    cache f' = cache f ∧
    (∀ x, x ∈ pending_ids f' ↔ x ∈ pending_ids f) ∧
    allocs f' = delete (id p) (allocs f) ∧
    pending f' !! txid
      = Some (default (mkTxPending [] []) (pending f !! txid)).
Proof.
  intros Hid Hlt Hov Hge Hver.
  assert (Hhi : wrap64 (id p + overflow p) < id p).
  { unfold wrap64.
    replace (id p + overflow p) with (id p + overflow p - 2 ^ 64 + 1 * 2 ^ 64)
      by lia.
    rewrite N.Div0.mod_add. rewrite N.mod_small; lia. }
  assert (Hrun : free txid p f = Ok (tt, free_prepared txid p f)).
  { rewrite free_unfold by done.
    assert (Hg : assertions
                 && bool_decide (default 0 (allocs f !! id p) = txid) = false).
    { destruct Hver as [->|Hne]; [done|].
      rewrite (bool_decide_eq_false_2 _ Hne). apply andb_false_r. }
    rewrite Hg.
    destruct (N.to_nat (overflow p) + 2)%nat eqn:E; [lia|]. simpl.
    destruct (N.leb_spec (id p) (wrap64 (id p + overflow p))); [lia|done]. }
  eexists. split; [exact Hrun|]. unfold free_prepared. simpl. split_and!.
  - done.
  - intros x. rewrite !elem_of_pending_ids. simpl.
    destruct (pending f !! txid) as [txp|] eqn:E; [done|]. split.
    + intros (t & txp & Ht & Hx).
      apply lookup_insert_Some in Ht as [[<- <-]|[Hne Ht]]; [|by eauto].
      by apply elem_of_nil in Hx.
    + intros (t & txp & Ht & Hx). exists t, txp. split; [|done].
      rewrite lookup_insert_ne; [done|]. intros ->. by rewrite E in Ht.
  - done.
  - destruct (pending f !! txid) as [txp|] eqn:E; simpl.
    + by rewrite E.
    + by rewrite lookup_insert_eq.
Qed.

(** ** [rollback], further *)

(** [rollback] on a bucket whose slices have one length. *)
Lemma rollback_run (txid : Txid) (f : freelist) (txp : txPending) :
  pending f !! txid = Some txp →
  length (ids txp) = length (alloctx txp) →
  match rollback txid f with
  | Ok (_, f') =>
      (txid = 0 ∨ txid ∉ alloctx txp) ∧
      allocs f' = restore_allocs (entries txp) (allocs f) ∧
      cache f' = cache f ∖ list_to_set (ids txp) ∧
      pending f' = delete txid (pending f) ∧ free_ids f' = free_ids f ∧
      freemaps f' = freemaps f ∧ forwardMap f' = forwardMap f ∧
      backwardMap f' = backwardMap f ∧ freePagesCount f' = freePagesCount f
  | Panic _ => txid ≠ 0 ∧ txid ∈ alloctx txp
  | Undefined => False
  end.
Proof.
  intros Hp Hlen. unfold rollback, bind, gets, modify. simpl. rewrite Hp.
  assert (H1 : (entries txp).*1 = ids txp)
    by (unfold entries; apply fst_zip; lia).
  assert (H2 : (entries txp).*2 = alloctx txp)
    by (unfold entries; apply snd_zip; lia).
  pose proof (rollback_loop_spec txid (alloctx txp) (entries txp) 0 f) as Hl.
  rewrite H1, H2 in Hl. specialize (Hl (λ j a Hj, Hj)).
  destruct (rollback_loop txid (alloctx txp) 0 (ids txp) f)
    as [[u f']| |]; simpl in *; [|done|done].
  destruct Hl as (Ht & Ha & Hc & Hpe & Hi & Hfm & Hfw & Hbw & Hn).
  split_and!; try done. by rewrite Hpe.
Qed.

Lemma elem_of_replicate_same {A} (n : nat) (x y : A) :
  y ∈ replicate n x → y = x.
Proof. intros Hy. by apply elem_of_replicate in Hy as [-> _]. Qed.

Lemma restore_allocs_replicate (l : list Pgid) (a : Txid) (m : gmap N N)
    (i : N) :
  restore_allocs (zip l (replicate (length l) a)) m !! i
  = if decide (i ∈ l ∧ a ≠ 0) then Some a else m !! i.
Proof.
  revert m. induction l as [|x l IH]; intros m; simpl.
  - first [done | case_decide as Hd; [|done]; destruct Hd as [Hi _];
                   by apply elem_of_nil in Hi].
  - fold (restore_allocs (zip l (replicate (length l) a))
            (if decide (a = 0) then m else <[x := a]> m)).
    rewrite IH. destruct (decide (a = 0)) as [->|Ha].
    + rewrite !decide_False by (by intros [_ ?]). done.
    + destruct (decide (i ∈ l)) as [Hi|Hi].
      * rewrite !decide_True; [done|split; [by right|done]|done].
      * rewrite (decide_False (P := i ∈ l ∧ a ≠ 0)) by (by intros [? _]).
        destruct (decide (i = x)) as [->|Hne].
        -- rewrite lookup_insert_eq, decide_True; [done|]. split; [left|done].
        -- rewrite lookup_insert_ne by done.
           rewrite decide_False; [done|].
           intros [[->|?]%elem_of_cons _]; done.
Qed.

(** [free] then [rollback], for a transaction that had no bucket and did
    not allocate the page: the cache, the pending table and the span index
    are as before the [free]; [allocs] has the allocator [a] of the page,
    when there is one, for every id of the page, the overflow ids
    included. For a page without overflow whose allocator is known or
    absent, the manager is exactly the one before the [free]. *)
Theorem free_rollback (txid : Txid) (p : Page) (f f' : freelist) (u : unit) :
  free txid p f = Ok (u, f') →
  pending f !! txid = None →
  let a := default 0 (allocs f !! id p) in
  a ≠ txid ∨ txid = 0 →
  ∃ f'', rollback txid f' = Ok (tt, f'') ∧
    cache f'' = cache f ∧ pending f'' = pending f ∧
    forwardMap f'' = forwardMap f ∧ backwardMap f'' = backwardMap f ∧
    freemaps f'' = freemaps f ∧ freePagesCount f'' = freePagesCount f ∧
    (∀ i, allocs f'' !! i
          = if decide (i ∈ free_range p ∧ a ≠ 0) then Some a
            else delete (id p) (allocs f) !! i) ∧
    (overflow p = 0 → id p < max_uint64 → allocs f !! id p ≠ Some 0 →
     f'' = f).
Proof.
  intros Hfree Hnone a Ha.
  destruct (free_ok_inv _ _ _ _ _ Hfree)
    as (Hid & Hfresh & Hp & Hc & Hal & Hfw & Hbw & Hfm & Hn & Hfi).
  fold a in Hp. rewrite Hnone in Hp. simpl in Hp.
  set (txp := append_pending (free_range p) a (mkTxPending [] [])) in *.
  assert (Ht : pending f' !! txid = Some txp)
    by (rewrite Hp; apply lookup_insert_eq).
  pose proof (rollback_run txid f' txp Ht) as Hr.
  assert (Hlen : length (ids txp) = length (alloctx txp))
    by (simpl; by rewrite length_replicate).
  specialize (Hr Hlen).
  destruct (rollback txid f') as [[v f'']| |]; [| |done].
  - destruct v.
    destruct Hr as (_ & Ha'' & Hc'' & Hp'' & Hfi'' & Hfm'' & Hfw'' & Hbw'' & Hn'').
    assert (Hcache : cache f'' = cache f).
    { rewrite Hc'', Hc. simpl. apply set_eq. intros x.
      rewrite elem_of_difference, elem_of_union, elem_of_list_to_set.
      split; [intros [[?|?] ?]; done|]. intros Hx. split; [by left|].
      intros Hr. by apply (Hfresh x). }
    assert (Hpend : pending f'' = pending f).
    { rewrite Hp'', Hp. rewrite delete_insert_eq. by apply delete_id. }
    assert (Hall : ∀ i, allocs f'' !! i
                        = if decide (i ∈ free_range p ∧ a ≠ 0) then Some a
                          else delete (id p) (allocs f) !! i).
    { intros i. rewrite Ha'', Hal. unfold entries, txp. simpl.
      apply restore_allocs_replicate. }
    exists f''. split_and!; try done; try congruence.
    intros Hov Hmax Hnz.
    assert (Hrange : ∀ i, i ∈ free_range p ↔ i = id p).
    { intros i. rewrite elem_of_free_range, Hov, N.add_0_r.
      unfold max_uint64 in Hmax. rewrite wrap64_small by lia. lia. }
    assert (Hallocs : allocs f'' = allocs f).
    { apply map_eq. intros i. rewrite Hall.
      destruct (decide (i ∈ free_range p ∧ a ≠ 0)) as [[Hi Ha0]|Hd].
      - apply Hrange in Hi as ->. unfold a in *.
        destruct (allocs f !! id p); simpl in *; [done|done].
      - destruct (decide (i = id p)) as [->|Hne].
        + rewrite lookup_delete_eq. unfold a in *.
          destruct (allocs f !! id p) as [b|] eqn:E; [|done]. simpl in *.
          destruct Hd. split; [by apply Hrange|]. intros ->. done.
        + by rewrite lookup_delete_ne. }
    destruct f, f''. simpl in *. congruence.
  - destruct Hr as [Hne Hin]. simpl in Hin.
    apply elem_of_replicate_same in Hin. destruct Ha; done.
Qed.

(** With the assertions off, a transaction can free a page it allocated
    itself, but such a [free] cannot be rolled back: [rollback] panics. *)
Theorem free_own_page_rollback_panics (txid : Txid) (p : Page)
    (f f' : freelist) (u : unit) :
  id p + overflow p < max_uint64 →
  allocs f !! id p = Some txid → txid ≠ 0 →
  (∀ txp, pending f !! txid = Some txp →
          length (ids txp) = length (alloctx txp)) →
  free txid p f = Ok (u, f') →
  assertions = false ∧ is_panic (rollback txid f').
Proof.
  intros Hb Hal Hnz Hlen Hfree.
  destruct (free_ok_inv _ _ _ _ _ Hfree) as (Hid & _ & Hp & _). split.
  { pose proof Hfree as Hf. rewrite free_unfold in Hf by done.
    rewrite Hal in Hf. simpl in Hf.
    rewrite bool_decide_eq_true_2 in Hf by done.
    by destruct assertions. }
  rewrite Hal in Hp. simpl in Hp.
  set (old := default (mkTxPending [] []) (pending f !! txid)) in *.
  assert (Ht : pending f' !! txid
               = Some (append_pending (free_range p) txid old))
    by (rewrite Hp; apply lookup_insert_eq).
  destruct (free_range_nonempty p Hb) as [_ Hrl].
  pose proof (rollback_run txid f' _ Ht) as Hr.
  assert (Hin : txid ∈ alloctx (append_pending (free_range p) txid old)).
  { simpl. apply elem_of_app. right. rewrite Hrl.
    destruct (N.to_nat (overflow p + 1)) eqn:E; [lia|]. simpl. left. }
  destruct (rollback txid f') as [[v f'']| |]; simpl; [|done|].
  - destruct Hr as ([?|Hnot] & _); [|done|done].
    simpl. rewrite !length_app, length_replicate. f_equal.
    unfold old. destruct (pending f !! txid) as [txp|] eqn:E; simpl; [|done].
    by apply Hlen.
  - apply Hr. simpl. rewrite !length_app, length_replicate. f_equal.
    unfold old. destruct (pending f !! txid) as [txp|] eqn:E; simpl; [|done].
    by apply Hlen.
Qed.

Lemma rollback_loop_pending (txid : Txid) (atx : list Txid) (i : nat)
    (l : list Pgid) (f f' : freelist) (u : unit) :
  rollback_loop txid atx i l f = Ok (u, f') → pending f' = pending f.
Proof.
  revert i f. induction l as [|pg l IH]; intros i f.
  - simpl. unfold ret. by intros [= _ <-].
  - rewrite rollback_loop_cons. destruct (atx !! i) as [tx|]; [|done].
    repeat case_decide; try done; intros Hr; by apply IH in Hr.
Qed.

(** [rollback] of a transaction that was rolled back changes nothing. *)
Theorem rollback_twice (txid : Txid) (f f' : freelist) (u : unit) :
  rollback txid f = Ok (u, f') → rollback txid f' = Ok (tt, f').
Proof.
  unfold rollback at 1. unfold bind, gets, modify. simpl.
  intros Hr.
  assert (Hnone : pending f' !! txid = None).
  { destruct (pending f !! txid) as [txp|] eqn:E.
    - destruct (rollback_loop txid (alloctx txp) 0 (ids txp) f)
        as [[v g]| |] eqn:El; simpl in Hr; [|done|done].
      injection Hr as _ <-. simpl. apply lookup_delete_eq.
    - unfold ret in Hr. by injection Hr as _ <-. }
  unfold rollback, bind, gets. simpl. by rewrite Hnone.
Qed.

(** [rollback] keeps the invariant of the manager. *)
Theorem rollback_preserves_inv (txid : Txid) (f f' : freelist) (u : unit) :
  manager_inv f → rollback txid f = Ok (u, f') → manager_inv f'.
Proof.
  intros (Hsw & [Hpw Hcross] & Hcw) Hrun.
  destruct (pending f !! txid) as [txp|] eqn:Ht.
  2: { unfold rollback, bind, gets, ret in Hrun. simpl in Hrun.
       rewrite Ht in Hrun. injection Hrun as _ <-. done. }
  destruct (Hpw _ _ Ht) as (Hlen & Hnd & Hnc).
  pose proof (rollback_run txid f txp Ht Hlen) as Hr. rewrite Hrun in Hr.
  destruct Hr as (_ & _ & Hc & Hp & _ & _ & Hfw & Hbw & _).
  assert (Hbucket : ∀ t txp', pending f' !! t = Some txp' →
                              t ≠ txid ∧ pending f !! t = Some txp').
  { intros t txp' Hl. rewrite Hp in Hl.
    apply lookup_delete_Some in Hl as [Hne Hl]. split; [by intros ->|done]. }
  split_and!.
  - unfold spans_wf. rewrite Hfw, Hbw. exact Hsw.
  - split.
    + intros t txp' [_ Ht']%Hbucket. rewrite Hfw. by apply (Hpw t).
    + intros t1 t2 txp1 txp2 x [_ H1]%Hbucket [_ H2]%Hbucket. by eauto.
  - intros x. rewrite Hc, Hfw, elem_of_difference, elem_of_list_to_set.
    rewrite (Hcw x), !elem_of_pending_ids. split.
    + intros [[?|(t & txp' & Ht' & Hx)] Hnot]; [by left|right].
      exists t, txp'. split; [|done]. rewrite Hp.
      apply lookup_delete_Some. split; [|done]. intros <-. congruence.
    + intros [Hcov|(t & txp' & [Hne Ht']%Hbucket & Hx)].
      * split; [by left|]. intros Hx. by apply (Hnc x).
      * split; [right; eauto|]. intros Hx'.
        destruct Hne. symmetry. by eapply Hcross.
Qed.

(** ** [release], further *)

Lemma elem_of_ids_entries (txp : txPending) (x : Pgid) :
  length (ids txp) = length (alloctx txp) →
  x ∈ ids txp ↔ ∃ a, (x, a) ∈ entries txp.
Proof.
  intros Hlen. unfold entries. split.
  - intros [i Hi]%list_elem_of_lookup.
    destruct (lookup_lt_is_Some_2 (alloctx txp) i) as [a Ha].
    { rewrite <- Hlen. by eapply lookup_lt_Some. }
    exists a. apply list_elem_of_lookup. exists i.
    rewrite lookup_zip_with, Hi. simpl. by rewrite Ha.
  - intros [a Hin]. by eapply elem_of_zip_l.
Qed.

(** What a call of [release] leaves, for any order of the buckets. *)
Lemma release_in_run (order rtxids : list Txid) (f : freelist) :
  spans_wf f → pending_wf f →
  NoDup order → (∀ t, t ∈ order ↔ is_Some (pending f !! t)) →
  ∃ f' m1, release_in order rtxids f = Ok (tt, f') ∧
    (∀ x, x ∈ m1 ↔
       ∃ t txp a, pending f !! t = Some txp ∧ (x, a) ∈ entries txp ∧
                  safe2Release rtxids a t = true) ∧
    spans_wf f' ∧
    (∀ x, covers (forwardMap f') x ↔ covers (forwardMap f) x ∨ x ∈ m1) ∧
    cache f' = cache f ∪ list_to_set m1 ∧
    allocs f' = allocs f ∧
    (∀ t, pending f !! t = None → pending f' !! t = None) ∧
    (∀ t txp, pending f !! t = Some txp →
       match pending f' !! t with
       | None => kept_entries rtxids t txp = []
       | Some txp' =>
           ids txp' ≠ [] ∧ length (ids txp') = length (alloctx txp') ∧
           entries txp' ≡ₚ kept_entries rtxids t txp
       end).
Proof.
  intros Hwf [Hpw Hcross] Hnd Hord.
  destruct (release_buckets_spec rtxids order [] f) as
    (f1 & m1 & Hrun1 & Hf1 & Hm1 & Hoth & Hat); [|done|].
  { intros t txp Ht. by apply (Hpw t txp Ht). }
  simpl in Hm1.
  assert (Hin1 : ∀ x, x ∈ m1 ↔
    ∃ t txp a, pending f !! t = Some txp ∧ (x, a) ∈ entries txp ∧
               safe2Release rtxids a t = true).
  { intros x. rewrite Hm1, list_elem_of_bind. split.
    - intros (t & Hx & _). apply elem_of_released_ids in Hx. naive_solver.
    - intros (t & txp & a & Ht & Hx & Hs). exists t. split.
      + apply elem_of_released_ids. by exists txp, a.
      + apply Hord. by rewrite Ht. }
  assert (Hnd1 : NoDup m1).
  { rewrite Hm1. apply NoDup_bind; [| |done].
    - intros t1 t2 x _ _ Hx1 Hx2.
      apply elem_of_released_ids in Hx1 as (txp1 & a1 & Ht1 & Hx1 & _).
      apply elem_of_released_ids in Hx2 as (txp2 & a2 & Ht2 & Hx2 & _).
      unfold entries in *. eapply Hcross; eauto using elem_of_zip_l.
    - intros t _. unfold released_ids.
      destruct (pending f !! t) as [txp|] eqn:Ht; [|constructor].
      apply NoDup_filter_fst. destruct (Hpw t txp Ht) as (Hl & Hn & _).
      unfold entries. rewrite fst_zip by lia. done. }
  assert (Hfw1 : forwardMap f1 = forwardMap f) by (by rewrite Hf1).
  assert (Hwf1 : spans_wf f1).
  { unfold spans_wf. rewrite Hf1. simpl. exact Hwf. }
  destruct (hashmapMergeSpans_spec m1 f1 Hwf1 Hnd1)
    as (f' & Hrun & Hwf' & Hcov & Hp' & Ha' & Hc').
  { intros x Hx. apply Hin1 in Hx as (t & txp & a & Ht & Hx & _).
    rewrite Hfw1. destruct (Hpw t txp Ht) as (_ & _ & Hnc).
    apply Hnc. unfold entries in Hx. by eapply elem_of_zip_l. }
  exists f', m1. split.
  { unfold release_in, bind. rewrite Hrun1. simpl. exact Hrun. }
  split_and!; try done.
  - intros x. by rewrite Hcov, Hfw1.
  - by rewrite Hc', Hf1.
  - by rewrite Ha', Hf1.
  - intros t Ht. rewrite Hp'. destruct (decide (t ∈ order)) as [Hto|Hto].
    + specialize (Hat t Hto). by rewrite Ht in Hat.
    + by rewrite Hoth.
  - intros t txp Ht. rewrite Hp'.
    assert (Hto : t ∈ order) by (apply Hord; by rewrite Ht).
    specialize (Hat t Hto). by rewrite Ht in Hat.
Qed.

(** [release] keeps the invariant of the manager, whatever the order of
    the buckets and whatever the readers; the cache holds the same ids as
    before and [allocs] is untouched: an id that leaves [pending] enters a
    span, and none is lost. *)
Theorem release_preserves_inv (order rtxids : list Txid) (f : freelist) :
  manager_inv f →
  NoDup order → (∀ t, t ∈ order ↔ is_Some (pending f !! t)) →
  ∃ f', release_in order rtxids f = Ok (tt, f') ∧
    manager_inv f' ∧
    (∀ x, x ∈ cache f' ↔ x ∈ cache f) ∧
    (∀ x, covers (forwardMap f') x ∨ x ∈ pending_ids f' ↔
          covers (forwardMap f) x ∨ x ∈ pending_ids f) ∧
    allocs f' = allocs f.
Proof.
  intros (Hsw & Hpwf & Hcw) Hnd Hord.
  destruct (release_in_run order rtxids f Hsw Hpwf Hnd Hord)
    as (f' & m1 & Hrun & Hin1 & Hsw' & Hcov & Hc & Ha & Hnone & Hsome).
  destruct Hpwf as [Hpw Hcross].
  assert (Hback : ∀ t txp', pending f' !! t = Some txp' →
    ∃ txp, pending f !! t = Some txp ∧
           length (ids txp') = length (alloctx txp') ∧
           entries txp' ≡ₚ kept_entries rtxids t txp).
  { intros t txp' Ht'. destruct (pending f !! t) as [txp|] eqn:Ht.
    - specialize (Hsome t txp Ht). rewrite Ht' in Hsome.
      exists txp. by destruct Hsome as (_ & ? & ?).
    - rewrite (Hnone t Ht) in Ht'. done. }
  assert (Hkept : ∀ t txp txp' x, pending f !! t = Some txp →
    length (ids txp') = length (alloctx txp') →
    entries txp' ≡ₚ kept_entries rtxids t txp →
    x ∈ ids txp' ↔ ∃ a, (x, a) ∈ entries txp ∧
                        safe2Release rtxids a t ≠ true).
  { intros t txp txp' x Ht Hl He. rewrite (elem_of_ids_entries _ _ Hl).
    setoid_rewrite He. unfold kept_entries.
    setoid_rewrite list_elem_of_filter. unfold safe_entry. simpl.
    naive_solver. }
  assert (Hm1c : ∀ x, x ∈ m1 → x ∈ cache f).
  { intros x (t & txp & a & Ht & Hx & _)%Hin1. apply Hcw. right.
    apply elem_of_pending_ids. exists t, txp. split; [done|].
    unfold entries in Hx. by eapply elem_of_zip_l. }
  assert (Hpi : ∀ x, x ∈ pending_ids f' ↔ x ∈ pending_ids f ∧ x ∉ m1).
  { intros x. rewrite !elem_of_pending_ids. split.
    - intros (t & txp' & Ht' & Hx).
      destruct (Hback _ _ Ht') as (txp & Ht & Hl & He).
      apply (proj1 (Hkept t txp txp' x Ht Hl He)) in Hx.
      destruct Hx as (a & Hxa & Hns).
      destruct (Hpw _ _ Ht) as (Hlen & Hn & _). split.
      + exists t, txp. split; [done|]. unfold entries in Hxa.
        by eapply elem_of_zip_l.
      + intros (t2 & txp2 & a2 & Ht2 & Hx2 & Hs2)%Hin1.
        assert (t2 = t) as ->.
        { unfold entries in *. eapply Hcross; eauto using elem_of_zip_l. }
        rewrite Ht in Ht2. injection Ht2 as <-.
        rewrite (entries_fst_inj txp x a a2 Hn Hxa Hx2) in Hns. done.
    - intros [(t & txp & Ht & Hx) Hnm].
      destruct (Hpw _ _ Ht) as (Hlen & Hn & _).
      apply (proj1 (elem_of_ids_entries _ _ Hlen)) in Hx.
      destruct Hx as [a Hxa].
      assert (Hns : safe2Release rtxids a t ≠ true).
      { intros Hs. apply Hnm, Hin1. by exists t, txp, a. }
      specialize (Hsome t txp Ht).
      assert (Hk : (x, a) ∈ kept_entries rtxids t txp).
      { apply list_elem_of_filter. split; [exact Hns|done]. }
      destruct (pending f' !! t) as [txp'|] eqn:Ht'.
      + destruct Hsome as (_ & Hl & He). exists t, txp'. split; [done|].
        apply (proj2 (Hkept t txp txp' x Ht Hl He)). by exists a.
      + rewrite Hsome in Hk. by apply elem_of_nil in Hk. }
  exists f'. split; [done|]. split_and!; try done.
  - split_and!; [done| |].
    + split.
      * intros t txp' Ht'. destruct (Hback _ _ Ht') as (txp & Ht & Hl & He).
        destruct (Hpw _ _ Ht) as (Hlen & Hn & Hnc). split_and!; [done| |].
        -- assert (Hids : ids txp' = (entries txp').*1)
             by (unfold entries; rewrite fst_zip by lia; done).
           rewrite Hids, He. unfold kept_entries. apply NoDup_filter_fst.
           unfold entries. by rewrite fst_zip by lia.
        -- intros x Hx Hcx.
           assert (Hxp : x ∈ pending_ids f').
           { apply elem_of_pending_ids. eauto. }
           apply Hpi in Hxp as [(t2 & txp2 & Ht2 & Hx2)%elem_of_pending_ids
                                  Hnm].
           apply Hcov in Hcx as [Hcx|?]; [|done].
           destruct (Hpw _ _ Ht2) as (_ & _ & Hnc2). by apply (Hnc2 x).
      * intros t1 t2 txp1' txp2' x Ht1' Ht2' Hx1 Hx2.
        destruct (Hback _ _ Ht1') as (txp1 & Ht1 & Hl1 & He1).
        destruct (Hback _ _ Ht2') as (txp2 & Ht2 & Hl2 & He2).
        apply (proj1 (Hkept _ _ _ x Ht1 Hl1 He1)) in Hx1.
        apply (proj1 (Hkept _ _ _ x Ht2 Hl2 He2)) in Hx2.
        destruct Hx1 as (a1 & Hx1 & _). destruct Hx2 as (a2 & Hx2 & _).
        unfold entries in *. eapply Hcross; eauto using elem_of_zip_l.
    + intros x. rewrite Hc, elem_of_union, elem_of_list_to_set, Hcov, Hpi.
      rewrite (Hcw x). destruct (decide (x ∈ m1)); tauto.
  - intros x. rewrite Hc, elem_of_union, elem_of_list_to_set.
    split; [intros [?|?]; auto|auto].
  - intros x. rewrite Hcov, Hpi. split.
    + intros [[?|Hm]|[? _]]; auto. apply Hcw. auto.
    + intros [?|?]; [auto|]. destruct (decide (x ∈ m1)); auto.
Qed.

(** With no open reader, [release] empties the pending table: every pending
    id goes to the spans. *)
Theorem release_no_readers (order : list Txid) (f : freelist) :
  spans_wf f → pending_wf f →
  NoDup order → (∀ t, t ∈ order ↔ is_Some (pending f !! t)) →
  ∃ f', release_in order [] f = Ok (tt, f') ∧
    pending f' = ∅ ∧
    (∀ x, x ∈ free_page_ids f' ↔ x ∈ free_page_ids f ∨ x ∈ pending_ids f).
Proof.
  intros Hsw Hpwf Hnd Hord.
  destruct (release_in_run order [] f Hsw Hpwf Hnd Hord)
    as (f' & m1 & Hrun & Hin1 & _ & Hcov & _ & _ & Hnone & Hsome).
  destruct Hpwf as [Hpw _].
  exists f'. split; [done|]. split.
  - apply map_eq. intros t. rewrite lookup_empty.
    destruct (pending f !! t) as [txp|] eqn:Ht; [|by apply Hnone].
    specialize (Hsome t txp Ht).
    destruct (pending f' !! t) as [txp'|]; [|done].
    destruct Hsome as (Hne & Hl & He).
    assert (Hk : kept_entries [] t txp = []).
    { unfold kept_entries.
      destruct (filter _ (entries txp)) as [|e k] eqn:E; [done|].
      assert (Hin : e ∈ filter (λ e, ¬ safe_entry [] t e) (entries txp))
        by (rewrite E; left).
      apply list_elem_of_filter in Hin as [Hns _]. by destruct Hns. }
    rewrite Hk in He. apply Permutation_nil_r in He.
    unfold entries in He. apply zip_nil_inv in He as [?|He]; [done|].
    rewrite He in Hl. by apply length_zero_iff_nil in Hl.
  - intros x. rewrite !elem_of_free_page_ids, Hcov, Hin1.
    rewrite elem_of_pending_ids. split.
    + intros [?|(t & txp & a & Ht & Hx & _)]; [by left|right].
      exists t, txp. split; [done|]. unfold entries in Hx.
      by eapply elem_of_zip_l.
    + intros [?|(t & txp & Ht & Hx)]; [by left|right].
      destruct (Hpw _ _ Ht) as (Hlen & _).
      apply (proj1 (elem_of_ids_entries _ _ Hlen)) in Hx.
      destruct Hx as [a Hxa]. by exists t, txp, a.
Qed.

(** ** [count] along [free], and the page [write] leaves *)

Lemma pending_ids_insert_length (f : freelist) (t : Txid)
    (m : gmap N txPending) (new : txPending) :
  pending f = <[t := new]> m →
  (length (pending_ids f) + length (ids (default (mkTxPending [] []) (m !! t))))%nat
  = (length (pending_ids (set_pending m f)) + length (ids new))%nat.
Proof.
  intros Hp. unfold pending_ids. simpl. rewrite Hp.
  assert (Hins : map_to_list (<[t := new]> m)
                 ≡ₚ (t, new) :: map_to_list (delete t m)).
  { rewrite <- insert_delete_eq. apply map_to_list_insert, lookup_delete_eq. }
  rewrite Hins. csimpl. rewrite length_app.
  destruct (m !! t) as [old|] eqn:E; simpl.
  - rewrite <- (map_to_list_delete m t old E). csimpl. rewrite length_app. lia.
  - rewrite (delete_id m t E). lia.
Qed.

(** A call of [free] that returns raises [count()] by the number of ids of
    the page, [overflow + 1], as long as the counts are [int]s. *)
Theorem free_count (txid : Txid) (p : Page) (f f' : freelist) (u : unit) :
  id p + overflow p < max_uint64 →
  (Z.of_N (freePagesCount f) + Z.of_nat (length (pending_ids f))
   + Z.of_N (overflow p) + 1 < 2 ^ 63)%Z →
  free txid p f = Ok (u, f') →
  count f = Ok (count_of f, f) ∧
  count f' = Ok ((count_of f + Z.of_N (overflow p) + 1)%Z, f').
Proof.
  intros Hb Hbound Hfree. split; [apply count_run|]. rewrite count_run.
  do 2 f_equal.
  destruct (free_ok_inv _ _ _ _ _ Hfree)
    as (_ & _ & Hp & _ & _ & _ & _ & _ & Hn & _).
  destruct (free_range_nonempty p Hb) as [_ Hrl].
  pose proof (pending_ids_insert_length f' txid (pending f) _ Hp) as Hlen.
  simpl in Hlen. rewrite length_app, Hrl in Hlen.
  assert (Hsame : pending_ids (set_pending (pending f) f') = pending_ids f)
    by done.
  rewrite Hsame in Hlen.
  unfold count_of, pending_count_of. rewrite Hn.
  fold (pending_ids f) in *.
  change (map_to_list (pending f') ≫= (λ kv, ids kv.2))
    with (pending_ids f') in *.
  unfold int_of_uint64.
  rewrite (int_wrap_small (Z.of_N (freePagesCount f))) by lia.
  rewrite !pending_count_foldl; unfold pending_ids in *; try lia.
  rewrite !int_wrap_small; lia.
Qed.

(** The page [write] leaves is a Freelist page, and decoding it gives the
    free and the pending ids of the manager, each as often as the manager
    holds it, in ascending order: the sort of [read] finds them sorted. *)
Theorem written_page_decodes (p : Page) (f : freelist) :
  count_exact f → page_fits f p →
  ∃ p' l,
    write p f = Ok ((p', None), f) ∧
    IsFreelistPage p' = true ∧
    FreelistPageIds p' = Ok l ∧
    StronglySorted N.le l ∧
    l ≡ₚ free_page_ids f ++ pending_ids f ∧
    sort_pgids l = l.
Proof.
  intros Hc Hp. exists (written_page f p), (all_ids f).
  assert (Hs : StronglySorted N.le (all_ids f)).
  { apply Sorted_StronglySorted; [apply _|].
    apply Sorted_list_merge; [apply _|..]; apply StronglySorted_Sorted;
      apply sort_pgids_sorted. }
  split_and!.
  - by apply write_run.
  - unfold IsFreelistPage, written_page. simpl. by apply bool_decide_eq_true_2.
  - by apply FreelistPageIds_written.
  - done.
  - unfold all_ids. rewrite merge_Permutation. by rewrite sort_pgids_perm.
  - by apply sort_pgids_id.
Qed.

(** ** The manager [noSyncReload] and [read] leave *)

Lemma foldl_addSpan_backward (spans : list (N * N)) (g : freelist) :
  backwardMap (foldl (λ g sp, addSpan sp.1 sp.2 g) g spans)
  = foldl (λ m sp, <[sp.1 + sp.2 - 1 := sp.2]> m) (backwardMap g) spans.
Proof.
  revert g. induction spans as [|sp spans IH]; intros g; simpl; [done|].
  by rewrite IH.
Qed.

Lemma lookup_foldl_insert_end (spans : list (N * N)) (bw : gmap N N)
    (e n : N) :
  foldl (λ m sp, <[sp.1 + sp.2 - 1 := sp.2]> m) bw spans !! e = Some n →
  (∃ st, (st, n) ∈ spans ∧ e = st + n - 1) ∨ bw !! e = Some n.
Proof.
  revert bw. induction spans as [|[s0 n0] spans IH]; intros bw; simpl.
  - by right.
  - intros [(st & Hin & ->)|Hl]%IH.
    + left. exists st. split; [by right|done].
    + apply lookup_insert_Some in Hl as [[<- <-]|[_ Hl]]; [|by right].
      left. exists s0. split; [by left|done].
Qed.

(** The span maps installed from an ascending list of ids agree. *)
Lemma install_spans_wf (l : list Pgid) (f : freelist) :
  StronglySorted N.lt l → spans_wf (install_spans l f).
Proof.
  intros Hs. destruct (StronglySorted_lt_le l Hs) as [Hle _].
  pose proof (spans_of_ids_apart l Hs) as Ho.
  destruct (spans_of_ids_spec l Hle) as (_ & _ & Hsz).
  rewrite Forall_forall in Hsz.
  unfold spans_wf, install_spans. rewrite foldl_addSpan_backward.
  destruct (foldl_addSpan_fields (spans_of_ids l) (set_spans ∅ ∅ ∅ 0 f))
    as (-> & _). simpl.
  assert (Hfw : ∀ st n,
    foldl (λ m sp, <[sp.1 := sp.2]> m) (∅ : gmap N N) (spans_of_ids l) !! st
      = Some n ↔ (st, n) ∈ spans_of_ids l).
  { intros st n. rewrite lookup_foldl_insert by done. split.
    - intros [?|[_ Hl]]; [done|]. by rewrite lookup_empty in Hl.
    - by left. }
  split.
  - intros st n Hl. apply Hfw in Hl. apply (Hsz _ Hl).
  - intros e n Hl. apply lookup_foldl_insert_end in Hl
      as [(st & Hin & ->)|Hl]; [|by rewrite lookup_empty in Hl].
    pose proof (Hsz _ Hin) as Hn. simpl in Hn. split; [lia|].
    replace (st + n - 1 + 1 - n) with st by lia. by apply Hfw.
Qed.

Lemma StronglySorted_lt_filter (P : N → Prop) `{∀ x, Decision (P x)}
    (l : list Pgid) :
  StronglySorted N.lt l → StronglySorted N.lt (filter P l).
Proof.
  induction 1 as [|x l Hs IH Hx]; [constructor|].
  rewrite filter_cons. case_decide; [|done].
  constructor; [done|]. rewrite Forall_forall in *.
  intros y [_ Hy]%list_elem_of_filter. by apply Hx.
Qed.

(** Installing an ascending list of ids none of which is pending, under a
    pending table that has each id once, gives a manager that meets the
    invariant. *)
Lemma ids_installed_inv (a : list Pgid) (f : freelist) :
  StronglySorted N.lt a → pending_distinct f →
  (∀ x, x ∈ a → x ∉ pending_ids f) →
  manager_inv (ids_installed a f).
Proof.
  intros Hsa [Hpd Hcross] Hnp.
  destruct (StronglySorted_lt_le a Hsa) as [Hale _].
  destruct (install_spans_fields a f) as (Hp & _).
  assert (Hpi : pending_ids (ids_installed a f) = pending_ids f).
  { unfold pending_ids, ids_installed. simpl. by rewrite Hp. }
  split_and!.
  - unfold spans_wf, ids_installed. simpl. by apply install_spans_wf.
  - split.
    + intros t txp Ht. unfold ids_installed in Ht. simpl in Ht.
      rewrite Hp in Ht. destruct (Hpd _ _ Ht) as [Hl Hn].
      split_and!; [done|done|]. intros x Hx Hcov.
      unfold ids_installed in Hcov. simpl in Hcov.
      rewrite install_spans_covers in Hcov by done.
      apply (Hnp x Hcov). apply elem_of_pending_ids. eauto.
    + intros t1 t2 txp1 txp2 x Ht1 Ht2. unfold ids_installed in *.
      simpl in *. rewrite Hp in Ht1, Ht2. by eapply Hcross.
  - intros x. rewrite Hpi. unfold ids_installed at 1. simpl.
    rewrite elem_of_union, !elem_of_list_to_set, elem_of_free_page_ids.
    done.
Qed.

(** [noSyncReload] of an ascending list of ids, on a manager whose pending
    table has each id once: the pending table and [allocs] are kept, the
    free ids are the ids of the list that are not pending, and the manager
    meets its invariant, whatever its span index and cache were. *)
Theorem noSyncReload_inv (l : list Pgid) (f : freelist) :
  StronglySorted N.lt l → pending_distinct f →
  ∃ f', noSyncReload l f = Ok (tt, f') ∧
    manager_inv f' ∧
    pending f' = pending f ∧ allocs f' = allocs f ∧
    (∀ x, x ∈ free_page_ids f' ↔ x ∈ l ∧ x ∉ pending_ids f).
Proof.
  intros Hs Hpd.
  set (a := filter (λ i, i ∉ (list_to_set (pending_ids f) : gset N)) l).
  assert (Hsa : StronglySorted N.lt a) by (by apply StronglySorted_lt_filter).
  destruct (StronglySorted_lt_le a Hsa) as [Hale _].
  assert (Hrun : noSyncReload l f = Ok (tt, ids_installed a f)).
  { unfold noSyncReload, not_pending, bind, gets, ret. simpl.
    apply hashmapReadIDs_run. }
  destruct (install_spans_fields a f) as (Hp & _ & Hal & _).
  exists (ids_installed a f). split; [done|]. split_and!.
  - apply ids_installed_inv; [done|done|]. intros x. unfold a.
    rewrite list_elem_of_filter, elem_of_list_to_set. tauto.
  - unfold ids_installed. simpl. exact Hp.
  - unfold ids_installed. simpl. exact Hal.
  - intros x. rewrite elem_of_free_page_ids. unfold ids_installed. simpl.
    rewrite install_spans_covers by done. unfold a.
    rewrite list_elem_of_filter, elem_of_list_to_set. tauto.
Qed.

(** [reload] of a Freelist page that stores at least one id, the ids
    ascending, on a manager whose pending table has each id once: the
    pending table and [allocs] are kept, the free ids are the ids of the
    page that are not pending, and the manager meets its invariant,
    whatever its span index and cache were. *)
Theorem reload_inv (p : Page) (l : list Pgid) (f : freelist) :
  IsFreelistPage p = true → FreelistPageIds p = Ok l → l ≠ [] →
  StronglySorted N.lt l → pending_distinct f →
  ∃ f', reload p f = Ok (tt, f') ∧
    manager_inv f' ∧
    pending f' = pending f ∧ allocs f' = allocs f ∧
    (∀ x, x ∈ free_page_ids f' ↔ x ∈ l ∧ x ∉ pending_ids f).
Proof.
  intros Hfl Hids Hne Hs Hpd.
  destruct (reload_agrees p f l Hfl Hids Hne Hs)
    as (-> & f' & Hrun & Hfree & _).
  exists f'. split; [done|].
  set (a := filter (λ i, i ∉ (list_to_set (pending_ids f) : gset N)) l).
  assert (Hf' : f' = ids_installed a f).
  { assert (Hrun' : noSyncReload l f = Ok (tt, ids_installed a f)).
    { unfold noSyncReload, not_pending, bind, gets, ret. simpl.
      apply hashmapReadIDs_run. }
    congruence. }
  destruct (install_spans_fields a f) as (Hp & _ & Hal & _).
  split_and!; [|by subst f'|by subst f'|done].
  rewrite Hf'. apply ids_installed_inv; [|done|].
  - by apply StronglySorted_lt_filter.
  - intros x. unfold a.
    rewrite list_elem_of_filter, elem_of_list_to_set. tauto.
Qed.

(** [read] of a Freelist page with distinct ids, on a fresh manager, leaves
    a manager that meets its invariant. *)
Theorem read_fresh_inv (p : Page) (l : list Pgid) :
  IsFreelistPage p = true → FreelistPageIds p = Ok l → NoDup l →
  ∃ f', read p newFreelist = Ok (tt, f') ∧ manager_inv f' ∧
        (∀ x, x ∈ cache f' ↔ x ∈ l) ∧ allocs f' = ∅.
Proof.
  intros Hfl Hids Hnd. rewrite read_unfold, Hfl, Hids.
  destruct (decide (length l = 0%nat)) as [H0|Hn].
  - apply length_zero_iff_nil in H0 as ->. eexists. split; [done|].
    split_and!; [| |done].
    + split_and!.
      * split; simpl; intros ? ? Hl; by rewrite lookup_empty in Hl.
      * split; simpl.
        -- intros ? ? Hl. by rewrite lookup_empty in Hl.
        -- intros ? ? ? ? ? Hl. by rewrite lookup_empty in Hl.
      * intros x. simpl. split; [by intros ?%elem_of_empty|].
        intros [(? & ? & Hl & _)|Hx].
        -- by rewrite lookup_empty in Hl.
        -- apply elem_of_pending_ids in Hx as (? & ? & Hl & _).
           simpl in Hl. by rewrite lookup_empty in Hl.
    + intros x. simpl. split; [by intros ?%elem_of_empty|].
      by intros ?%elem_of_nil.
  - eexists. split; [done|].
    destruct (install_spans_fields (sort_pgids l) newFreelist)
      as (Hp & _ & Hal & _).
    assert (Hpe : pending_ids (ids_installed (sort_pgids l) newFreelist) = []).
    { unfold pending_ids, ids_installed. simpl. rewrite Hp. simpl.
      by rewrite map_to_list_empty. }
    split_and!.
    + split_and!.
      * unfold spans_wf, ids_installed. simpl.
        by apply install_spans_wf, StronglySorted_lt_of_NoDup.
      * split; unfold ids_installed; simpl; rewrite Hp; simpl.
        -- intros ? ? Hl. by rewrite lookup_empty in Hl.
        -- intros ? ? ? ? ? Hl. by rewrite lookup_empty in Hl.
      * intros x. rewrite Hpe. unfold ids_installed at 1. simpl.
        rewrite elem_of_union, !elem_of_list_to_set, elem_of_free_page_ids.
        unfold pending_ids. simpl. rewrite map_to_list_empty. done.
    + intros x. rewrite ids_installed_cache. unfold pending_ids. simpl.
      rewrite map_to_list_empty. csimpl. rewrite elem_of_nil. tauto.
    + unfold ids_installed. simpl. exact Hal.
Qed.

(** ** [freed] *)

(** [freed] along a [free] that returns: before it, no id of the page is
    reported; after it, every id of the page is, and every other id is
    reported as before. [freed] leaves the manager as it is. *)
Theorem freed_after_free (txid : Txid) (p : Page) (f f' : freelist)
    (u : unit) :
  free txid p f = Ok (u, f') →
  ∀ i, (i ∈ free_range p →
        freed i f = Ok (false, f) ∧ freed i f' = Ok (true, f')) ∧
       (i ∉ free_range p →
        ∃ b, freed i f = Ok (b, f) ∧ freed i f' = Ok (b, f')).
Proof.
  intros Hrun i.
  destruct (free_ok_inv _ _ _ _ _ Hrun) as (_ & Hnc & _ & Hc & _).
  unfold freed, gets. rewrite Hc. split.
  - intros Hi. split; do 2 f_equal.
    + apply bool_decide_eq_false_2. by apply Hnc.
    + apply bool_decide_eq_true_2. set_solver.
  - intros Hi. eexists. split; [reflexivity|]. do 2 f_equal.
    apply bool_decide_ext. set_solver.
Qed.

End properties.

(** * The scenarios *)

Lemma st_demo_count_exact : @count_exact st_demo.
Proof. vm_compute. reflexivity. Qed.

Lemma write_frame_witness :
  ∃ p', @write common_release pg_demo st_demo = Ok ((p', None), st_demo).
Proof.
  apply (@write_frame common_release pg_demo st_demo).
  - vm_compute. reflexivity.
  - vm_compute. split; [discriminate | reflexivity].
Defined.

Lemma counting_convention_witness :
  @size common_release st_demo = Ok (40%Z, st_demo) ∧
  @write common_release pg_demo st_demo
    = Ok ((@written_page common_release st_demo pg_demo, None), st_demo).
Proof.
  destruct (@counting_convention common_release pg_demo st_demo)
    as (_ & _ & Hw & Hs).
  split.
  - apply Hs; vm_compute; first [discriminate | reflexivity].
  - apply Hw; [vm_compute; reflexivity|].
    vm_compute. split; [discriminate | reflexivity].
Defined.

Lemma free_records_witness :
  @free common_release 7 pg_30 st_demo = Ok (tt, st_freed_30) ∧
  pending st_freed_30 !! 7
    = Some (append_pending (free_range pg_30) 0 (mkTxPending [20] [3])) ∧
  cache st_freed_30 = cache st_demo ∪ list_to_set (free_range pg_30).
Proof.
  assert (Hrun : @free common_release 7 pg_30 st_demo = Ok (tt, st_freed_30))
    by (vm_compute; reflexivity).
  split; [done|].
  destruct (@free_records common_release 7 pg_30 st_demo st_freed_30 tt Hrun)
    as (_ & Hp & _ & Hc & _).
  split; [exact Hp | exact Hc].
Defined.

(** C4 as stated fails when the assertions are enabled: the transaction 7
    frees the page 10 it allocated; the page id is above 1 and no id of the
    page is cached, and the call panics. *)
Lemma free_fails_iff_counterexample :
  let p := mkPage 10 0 0 1 [] in
  is_panic (@free common_debug 7 p st_alloc_10) ∧
  ¬ (id p ≤ 1 ∨ ∃ i, id p ≤ i ≤ id p + overflow p ∧ i ∈ cache st_alloc_10).
Proof.
  split; [vm_compute; exact I|].
  intros [Hle|(i & _ & Hin)]; [simpl in Hle; lia|].
  by apply elem_of_empty in Hin.
Qed.

Lemma free_fails_iff_witness :
  is_ok (@free common_release 7 pg_30 st_demo).
Proof.
  apply (@free_fails_iff common_release 7 pg_30 st_demo).
  - vm_compute. reflexivity.
  - vm_compute. tauto.
Defined.

Lemma rollback_spec_witness :
  ∃ f', rollback 7 st_pending_50 = Ok (tt, f') ∧
        allocs f' !! 50 = Some 3 ∧ pending f' !! 7 = None ∧
        cache f' = cache st_pending_50 ∖ list_to_set [50].
Proof.
  pose proof (rollback_spec 7 st_pending_50) as Hs.
  assert (Hp : pending st_pending_50 !! 7 = Some (mkTxPending [50] [3]))
    by (vm_compute; reflexivity).
  rewrite Hp in Hs. specialize (Hs eq_refl).
  rewrite decide_False in Hs
    by (intros [_ Hin]; apply list_elem_of_singleton in Hin; lia).
  destruct Hs as (f' & Hr & Hc & _ & _ & Ha & Hpe & _).
  exists f'. split_and!; [done| | |done].
  - rewrite (Ha (NoDup_singleton _) 50 3) by (apply list_elem_of_singleton; done).
    done.
  - rewrite Hpe. apply lookup_delete_eq.
Defined.

(** C5 as stated fails in two places: an empty bucket is deleted, so the
    manager is not left as it was; and [rollback(0)] does not fail on an
    entry whose allocator is 0. *)
Lemma rollback_counterexample :
  (let f := set_pending {[ 7 := mkTxPending [] [] ]} newFreelist in
   ∃ f', rollback 7 f = Ok (tt, f') ∧ f' ≠ f) ∧
  (let f := set_pending {[ 0 := mkTxPending [20] [0] ]}
              (set_cache {[ 20 ]} newFreelist) in
   (20, 0) ∈ entries (mkTxPending [20] [0]) ∧ is_ok (rollback 0 f)).
Proof.
  split.
  - eexists. split; [vm_compute; reflexivity|].
    intros Heq. apply (f_equal (λ g, pending g !! 7)) in Heq.
    vm_compute in Heq. discriminate.
  - split; [apply list_elem_of_singleton; done | vm_compute; exact I].
Qed.

Lemma crash_recovery_witness :
  ∃ p' f',
    @write common_release pg_demo st_demo = Ok ((p', None), st_demo) ∧
    @read common_release p' newFreelist = Ok (tt, f') ∧
    (∀ x, x ∈ free_page_ids f' ↔
          x ∈ free_page_ids st_demo ∨ x ∈ pending_ids st_demo) ∧
    pending f' = ∅.
Proof.
  apply (@crash_recovery common_release st_demo pg_demo).
  - vm_compute. reflexivity.
  - vm_compute. split; [discriminate | reflexivity].
Defined.

Lemma st_release_wf : spans_wf st_release ∧ pending_wf st_release.
Proof.
  split; [split|split]; simpl.
  - intros st n Hl. by rewrite lookup_empty in Hl.
  - intros e n Hl. by rewrite lookup_empty in Hl.
  - intros t txp [<- <-]%lookup_singleton_Some. simpl. split_and!.
    + done.
    + apply NoDup_cons. split; [|apply NoDup_singleton].
      intros Hin%list_elem_of_singleton. lia.
    + intros x _ (st & n & Hl & _). by rewrite lookup_empty in Hl.
  - intros t1 t2 txp1 txp2 x [<- _]%lookup_singleton_Some
      [<- _]%lookup_singleton_Some _ _. done.
Qed.

Lemma release_spec_witness :
  ∃ f', release_in [10] [5] st_release = Ok (tt, f') ∧
    (101 ∈ free_page_ids f' ↔ ¬ ∃ r, r ∈ [5] ∧ 8 ≤ r < 10) ∧
    (100 ∈ free_page_ids f' ↔ ¬ ∃ r, r ∈ [5] ∧ 3 ≤ r < 10).
Proof.
  destruct (release_spec [10] [5] st_release) as (f' & Hrun & Hent & _).
  - apply st_release_wf.
  - apply st_release_wf.
  - apply NoDup_singleton.
  - intros t. rewrite list_elem_of_singleton. simpl. split.
    + intros ->. by rewrite lookup_singleton_eq.
    + intros [txp [<- _]%lookup_singleton_Some]. done.
  - exists f'. split; [done|].
    assert (Hp : pending st_release !! 10 = Some (mkTxPending [100; 101] [3; 8]))
      by apply lookup_singleton_eq.
    split.
    + apply (Hent 10 _ 101 8 Hp). unfold entries. simpl.
      apply elem_of_cons. right. by apply list_elem_of_singleton.
    + apply (Hent 10 _ 100 3 Hp). unfold entries. simpl.
      apply elem_of_cons. by left.
Defined.

Lemma read_spec_witness :
  ∃ f', @read common_release pg_40 st_demo = Ok (tt, f') ∧
        (∀ x, x ∈ free_page_ids f' ↔ x ∈ [40]) ∧
        (∀ x, x ∈ cache f' ↔ x ∈ [40] ∨ x ∈ pending_ids st_demo).
Proof.
  destruct (@read_spec common_release pg_40 st_demo) as (_ & Hr & _).
  destruct (Hr [40]) as (f' & Hrun & Hfree & _ & Hc & _).
  - vm_compute. reflexivity.
  - vm_compute. reflexivity.
  - discriminate.
  - exists f'. split_and!; done.
Defined.

(** C7 as stated fails on a manager that has pending ids: after [read] of
    a page that stores the id 40 alone, the cache also holds the pending
    id 20. *)
Lemma read_spec_counterexample :
  ∃ f', @read common_release pg_40 st_demo = Ok (tt, f') ∧
        @FreelistPageIds pg_40 = Ok [40] ∧
        20 ∈ cache f' ∧ 20 ∉ [40].
Proof.
  eexists. split; [vm_compute; reflexivity|]. split; [vm_compute; reflexivity|].
  split.
  - vm_compute. set_solver.
  - intros Hin%list_elem_of_singleton. lia.
Qed.

(** C8, where the code departs from it. [reload] of a Freelist page that
    stores no id, on a manager that has the span [(10, 2)]: [read] only
    clears the field [ids], the span stays, and [reload] installs it again;
    the free ids are 10 and 11, and not the ids decoded from the page, which
    are none and which [noSyncReload] installs. On the pages that store an
    id the two agree ([reload_agrees]). *)
Lemma reload_zero_ids :
  @FreelistPageIds pg_empty = Ok [] ∧
  ∃ f', @reload common_release pg_empty st_demo = Ok (tt, f') ∧
        free_page_ids f' = [10; 11] ∧
        ∃ f'', noSyncReload [] st_demo = Ok (tt, f'') ∧ free_page_ids f'' = [].
Proof.
  split; [vm_compute; reflexivity|].
  eexists. split; [vm_compute; reflexivity|]. split; [vm_compute; reflexivity|].
  eexists. split; vm_compute; reflexivity.
Qed.

Lemma allocate_spec_witness :
  hashmapAllocate 1 2 st_spans = Ok (100, allocated 1 100 2 2 st_spans) ∧
  forwardMap (allocated 1 100 2 2 st_spans) = delete 100 (forwardMap st_spans).
Proof.
  assert (Hb : (freemaps st_spans !!! 2 : gset N) = {[ 100; 200 ]})
    by (vm_compute; reflexivity).
  destruct (proj2 (allocate_spec 1 2 st_spans) 2 100)
    as (Hrun & _ & _ & _ & Hfw).
  - lia.
  - unfold has_span. rewrite Hb. set_solver.
  - intros. lia.
  - rewrite Hb. set_solver.
  - intros s. rewrite Hb. set_unfold. lia.
  - split; [done|by apply Hfw].
Defined.

(** ** The scenarios of the further properties *)

Lemma st_demo_inv : manager_inv st_demo.
Proof.
  assert (Hpi : pending_ids st_demo = [20]) by (vm_compute; reflexivity).
  split_and!.
  - split; simpl.
    + intros st n [<- <-]%lookup_singleton_Some. lia.
    + intros e n [<- <-]%lookup_singleton_Some. split; [lia|].
      by apply lookup_singleton_Some.
  - split; simpl.
    + intros t txp [<- <-]%lookup_singleton_Some. simpl. split_and!.
      * done.
      * apply NoDup_singleton.
      * intros x ->%list_elem_of_singleton (st & n & Hl & Hx).
        apply lookup_singleton_Some in Hl as [<- <-]. lia.
    + intros t1 t2 txp1 txp2 x [<- _]%lookup_singleton_Some
        [<- _]%lookup_singleton_Some _ _. done.
  - intros x. rewrite Hpi. unfold covers. simpl.
    setoid_rewrite lookup_singleton_Some. set_unfold. naive_solver lia.
Qed.

Lemma st_release_inv : manager_inv st_release.
Proof.
  assert (Hpi : pending_ids st_release = [100; 101])
    by (vm_compute; reflexivity).
  split_and!; [apply st_release_wf|apply st_release_wf|].
  intros x. rewrite Hpi. unfold covers. simpl.
  setoid_rewrite lookup_empty. set_unfold. naive_solver.
Qed.

Lemma pending_count_length_witness :
  pending_count st_demo = Ok (1%Z, st_demo).
Proof.
  apply (pending_count_length st_demo). vm_compute. reflexivity.
Defined.

Lemma copyall_sorted_witness :
  ∃ l, copyall [0; 0; 0; 9] st_demo = Ok (l ++ [9], st_demo) ∧
       StronglySorted N.le l ∧
       l ≡ₚ free_page_ids st_demo ++ pending_ids st_demo.
Proof.
  destruct (proj2 (copyall_sorted [0; 0; 0; 9] st_demo))
    as (l & Hrun & _ & Hs & Hp).
  - vm_compute. lia.
  - exists l. split_and!; [exact Hrun|done|done].
Defined.

Lemma reindex_spec_witness :
  ∃ f', reindex st_demo = Ok (tt, f') ∧ cache_wf f' ∧ f' = st_demo.
Proof.
  destruct (reindex_spec st_demo) as (f' & Hrun & _ & Hc & _ & Hsame).
  exists f'. split_and!; [done|done|]. apply Hsame, st_demo_inv.
Defined.

Lemma free_preserves_inv_witness : manager_inv st_freed_30.
Proof.
  apply (@free_preserves_inv common_release 7 pg_30 st_demo st_freed_30 tt).
  - apply st_demo_inv.
  - vm_compute. reflexivity.
Defined.

Lemma free_twice_panics_witness :
  is_panic (@free common_release 9 pg_30 st_freed_30).
Proof.
  apply (@free_twice_panics common_release 7 9 pg_30 st_demo st_freed_30 tt).
  - vm_compute. reflexivity.
  - vm_compute. reflexivity.
Defined.

Lemma free_wrapped_range_witness :
  ∃ f', @free common_release 7 (mkPage (2 ^ 64 - 2) 0 0 5 []) st_demo
        = Ok (tt, f') ∧
        cache f' = cache st_demo ∧
        pending f' !! 7 = Some (mkTxPending [20] [3]).
Proof.
  destruct (@free_wrapped_range common_release 7
              (mkPage (2 ^ 64 - 2) 0 0 5 []) st_demo)
    as (f' & Hrun & Hc & _ & _ & Hp).
  - vm_compute. reflexivity.
  - vm_compute. reflexivity.
  - vm_compute. reflexivity.
  - vm_compute. discriminate.
  - by left.
  - exists f'. split_and!; [done|done|]. rewrite Hp. vm_compute. reflexivity.
Defined.

Lemma free_rollback_witness :
  ∃ f' f'', @free common_release 8 pg_30 st_demo = Ok (tt, f') ∧
            rollback 8 f' = Ok (tt, f'') ∧
            cache f'' = cache st_demo ∧ pending f'' = pending st_demo.
Proof.
  assert (Hrun : ∃ f', @free common_release 8 pg_30 st_demo = Ok (tt, f'))
    by (eexists; vm_compute; reflexivity).
  destruct Hrun as [f' Hrun].
  destruct (@free_rollback common_release 8 pg_30 st_demo f' tt Hrun)
    as (f'' & Hr & Hc & Hp & _).
  - vm_compute. reflexivity.
  - left. vm_compute. discriminate.
  - exists f', f''. done.
Defined.

Lemma free_own_page_rollback_panics_witness :
  ∃ f', @free common_release 7 (mkPage 10 0 0 1 []) st_alloc_10 = Ok (tt, f') ∧
        is_panic (rollback 7 f').
Proof.
  assert (Hrun : ∃ f', @free common_release 7 (mkPage 10 0 0 1 []) st_alloc_10
                       = Ok (tt, f'))
    by (eexists; vm_compute; reflexivity).
  destruct Hrun as [f' Hrun]. exists f'. split; [done|].
  apply (@free_own_page_rollback_panics common_release 7
           (mkPage 10 0 0 1 []) st_alloc_10 f' tt).
  - vm_compute. reflexivity.
  - vm_compute. reflexivity.
  - discriminate.
  - intros txp Hl. vm_compute in Hl. discriminate.
  - done.
Defined.

Lemma rollback_twice_witness :
  ∃ f', rollback 7 st_pending_50 = Ok (tt, f') ∧ rollback 7 f' = Ok (tt, f').
Proof.
  assert (Hrun : ∃ f', rollback 7 st_pending_50 = Ok (tt, f'))
    by (eexists; vm_compute; reflexivity).
  destruct Hrun as [f' Hrun]. exists f'. split; [done|].
  by apply (rollback_twice 7 st_pending_50 f' tt).
Defined.

Lemma rollback_preserves_inv_witness :
  ∃ f', rollback 7 st_demo = Ok (tt, f') ∧ manager_inv f'.
Proof.
  assert (Hrun : ∃ f', rollback 7 st_demo = Ok (tt, f'))
    by (eexists; vm_compute; reflexivity).
  destruct Hrun as [f' Hrun]. exists f'. split; [done|].
  apply (rollback_preserves_inv 7 st_demo f' tt); [apply st_demo_inv|done].
Defined.

Lemma st_release_order :
  NoDup [10] ∧ ∀ t, t ∈ [10] ↔ is_Some (pending st_release !! t).
Proof.
  split; [apply NoDup_singleton|].
  intros t. rewrite list_elem_of_singleton. simpl. split.
  - intros ->. by rewrite lookup_singleton_eq.
  - intros [txp [<- _]%lookup_singleton_Some]. done.
Qed.

Lemma release_preserves_inv_witness :
  ∃ f', release_in [10] [5] st_release = Ok (tt, f') ∧ manager_inv f' ∧
        ∀ x, x ∈ cache f' ↔ x ∈ cache st_release.
Proof.
  destruct (release_preserves_inv [10] [5] st_release)
    as (f' & Hrun & Hinv & Hc & _).
  - apply st_release_inv.
  - apply st_release_order.
  - apply st_release_order.
  - exists f'. done.
Defined.

Lemma release_no_readers_witness :
  ∃ f', release_in [10] [] st_release = Ok (tt, f') ∧ pending f' = ∅.
Proof.
  destruct (release_no_readers [10] st_release) as (f' & Hrun & Hp & _).
  - apply st_release_wf.
  - apply st_release_wf.
  - apply st_release_order.
  - apply st_release_order.
  - exists f'. done.
Defined.

Lemma free_count_witness :
  @count st_demo = Ok (3%Z, st_demo) ∧
  @count st_freed_30 = Ok (5%Z, st_freed_30).
Proof.
  apply (@free_count common_release 7 pg_30 st_demo st_freed_30 tt).
  - vm_compute. reflexivity.
  - vm_compute. reflexivity.
  - vm_compute. reflexivity.
Defined.

Lemma written_page_decodes_witness :
  ∃ p' l, @write common_release pg_demo st_demo = Ok ((p', None), st_demo) ∧
          @FreelistPageIds p' = Ok l ∧ StronglySorted N.le l.
Proof.
  destruct (@written_page_decodes common_release pg_demo st_demo)
    as (p' & l & Hw & _ & Hd & Hs & _).
  - vm_compute. reflexivity.
  - vm_compute. split; [discriminate | reflexivity].
  - exists p', l. done.
Defined.

Lemma st_demo_pending_distinct : pending_distinct st_demo.
Proof.
  destruct st_demo_inv as (_ & [Hpw Hcross] & _). split; [|exact Hcross].
  intros t txp Ht. destruct (Hpw t txp Ht) as (? & ? & _). done.
Qed.

Lemma noSyncReload_inv_witness :
  ∃ f', noSyncReload [10; 20; 40] st_demo = Ok (tt, f') ∧ manager_inv f' ∧
        ∀ x, x ∈ free_page_ids f' ↔
             x ∈ [10; 20; 40] ∧ x ∉ pending_ids st_demo.
Proof.
  destruct (noSyncReload_inv [10; 20; 40] st_demo)
    as (f' & Hrun & Hinv & _ & _ & Hfree).
  - repeat constructor; lia.
  - apply st_demo_pending_distinct.
  - exists f'. done.
Defined.

Lemma read_fresh_inv_witness :
  ∃ f', @read common_release pg_40 newFreelist = Ok (tt, f') ∧ manager_inv f'.
Proof.
  destruct (@read_fresh_inv common_release pg_40 [40])
    as (f' & Hrun & Hinv & _).
  - vm_compute. reflexivity.
  - vm_compute. reflexivity.
  - apply NoDup_singleton.
  - exists f'. done.
Defined.

Lemma reload_inv_witness :
  ∃ f', @reload common_release pg_40 st_demo = Ok (tt, f') ∧ manager_inv f' ∧
        ∀ x, x ∈ free_page_ids f' ↔ x ∈ [40] ∧ x ∉ pending_ids st_demo.
Proof.
  destruct (@reload_inv common_release pg_40 [40] st_demo)
    as (f' & Hrun & Hinv & _ & _ & Hfree).
  - vm_compute. reflexivity.
  - vm_compute. reflexivity.
  - discriminate.
  - repeat constructor.
  - apply st_demo_pending_distinct.
  - exists f'. done.
Defined.

Lemma freed_after_free_witness :
  @freed 31 st_demo = Ok (false, st_demo) ∧
  @freed 31 st_freed_30 = Ok (true, st_freed_30).
Proof.
  apply (@freed_after_free common_release 7 pg_30 st_demo st_freed_30 tt).
  - vm_compute. reflexivity.
  - apply (bool_decide_unpack _). vm_compute. exact I.
Defined.
